(** * A1 notation parser and formatter (shogo82148/a1notation)

    A shallow embedding of the TypeScript sources of the repository:

    - the documented implementation (class [A1Notation], class [Parser] and
      the helpers [parseCell], [fromBase26], [toBase26], [escapeSheetName]);
    - the implementation of [src/mod.ts], kept in [Module ModTs], whose
      constructor and parser differ in a few places.

    Modelling conventions.

    - A JavaScript string is the list of its code points ([jsstring]); this is
      what [[...s]] and [for (const ch of s)] iterate over.  A one-character
      string such as the result of [peek()] is a one-element list.
    - A JavaScript number is an integer of [Z].  This is exact for the
      integers of absolute value at most 2^53; fractional numbers, [NaN] and
      the infinities are outside the model.
    - An optional field or parameter ([x?: T]) is an [option]; [None] is
      [undefined].
    - A call either returns, throws an [Error] with a message, or runs for
      ever: [outcome].  The one loop that never leaves grows a string at
      every iteration, so an engine ends the run when the string passes its
      limit; that is no return and no error of the library. *)

From Stdlib Require Import String Ascii ZArith List Bool Lia.
Import ListNotations.
Local Open Scope Z_scope.

Set Implicit Arguments.

(** ** JavaScript strings *)

Definition codepoint := Z.
Definition jsstring := list codepoint.

(** The string with the characters of a literal (all below 256). *)
Definition js (s : string) : jsstring :=
  map (fun a => Z.of_N (N_of_ascii a)) (list_ascii_of_string s).

(** [a === b] on strings. *)
Fixpoint jseqb (a b : jsstring) : bool :=
  match a, b with
  | [], [] => true
  | x :: a', y :: b' => (x =? y) && jseqb a' b'
  | _, _ => false
  end.

(** Truthiness of a string: it is not empty. *)
Definition truthy_str (s : jsstring) : bool :=
  match s with [] => false | _ :: _ => true end.

(** Truthiness of an optional string ([undefined] is falsy). *)
Definition truthy_ostr (s : option jsstring) : bool :=
  match s with Some s => truthy_str s | None => false end.

(** Truthiness of an optional number ([undefined] and [0] are falsy). *)
Definition truthy_onum (n : option Z) : bool :=
  match n with Some n => negb (n =? 0) | None => false end.

(** ** Outcomes of a call *)

Inductive outcome (A : Type) : Type :=
| Ret (a : A)             (* the call returns [a] *)
| Throw (msg : jsstring)  (* the call throws [new Error(msg)] *)
| Diverges.               (* the call never returns *)

Arguments Ret {A} a.
Arguments Throw {A} msg.
Arguments Diverges {A}.

Definition bind {A B} (m : outcome A) (k : A -> outcome B) : outcome B :=
  match m with
  | Ret a => k a
  | Throw msg => Throw msg
  | Diverges => Diverges
  end.

Notation "'let*' x ':=' m 'in' k" := (bind m (fun x => k))
  (at level 10, x pattern, m at level 100, k at level 200).

(** ** Character classes of the regular expressions

    None of the regular expressions carries the [u] flag, so with the [i]
    flag [[a-z]] matches exactly the 52 ASCII letters. *)

Definition charCodeA : Z := 65.
Definition charCodeZ : Z := 90.
Definition charCode_a : Z := 97.
Definition charCode_z : Z := 122.
Definition charCode_0 : Z := 48.
Definition charCode_9 : Z := 57.

Definition is_upper (c : codepoint) : bool := (charCodeA <=? c) && (c <=? charCodeZ).
Definition is_lower (c : codepoint) : bool := (charCode_a <=? c) && (c <=? charCode_z).
Definition is_letter (c : codepoint) : bool := is_upper c || is_lower c.
Definition is_digit (c : codepoint) : bool := (charCode_0 <=? c) && (c <=? charCode_9).
Definition is_alnum (c : codepoint) : bool := is_letter c || is_digit c.

(** [/[a-z0-9]/i.test(s)] and [/[a-zA-Z0-9]/.test(s)]: the pattern is not
    anchored, so it looks for one alphanumeric character anywhere in [s]. *)
Definition test_alnum (s : jsstring) : bool := existsb is_alnum s.

(** [/^[a-z0-9]+$/i.test(s)]. *)
Definition test_alnum_plus (s : jsstring) : bool :=
  truthy_str s && forallb is_alnum s.

(** The longest prefix of [s] whose characters satisfy [p], and the rest. *)
Fixpoint span (p : codepoint -> bool) (s : jsstring) : jsstring * jsstring :=
  match s with
  | [] => ([], [])
  | c :: s' =>
      if p c then let (a, b) := span p s' in (c :: a, b) else ([], s)
  end.

(** [s.match(re)] for the pattern of [parseCell], which is anchored at both
    ends and asks for at most three letters (first group) followed by any
    number of digits (second group), ignoring case: the groups [m[1]] and
    [m[2]], or [None] for [null].  A letter is not a digit, so the only split
    that can match is the one after the longest run of letters. *)
Definition match_cell (s : jsstring) : option (jsstring * jsstring) :=
  let (letters, rest) := span is_letter s in
  if (length letters <=? 3)%nat && forallb is_digit rest
  then Some (letters, rest) else None.

(** [reCell.test(s)]: [reCell] is the same pattern with at least one digit
    in the second group. *)
Definition reCell_test (s : jsstring) : bool :=
  match match_cell s with
  | Some (_, digits) => truthy_str digits
  | None => false
  end.

(** ** The column codec *)

(** The body of the loop of [fromBase26], from the accumulator [n]. *)
Fixpoint fromBase26_from (n : Z) (s : jsstring) : outcome Z :=
  match s with
  | [] => Ret n
  | code :: s' =>
      if (charCodeA <=? code) && (code <=? charCodeZ) then
        fromBase26_from (n * 26 + code - charCodeA + 1) s'
      else if (charCode_a <=? code) && (code <=? charCode_z) then
        fromBase26_from (n * 26 + code - charCode_a + 1) s'
      else Throw (js "invalid character: " ++ [code])
  end.

(** [fromBase26(s)].  [ch.codePointAt(0)] of a character of the iteration is
    never [undefined], so the first [throw] is unreachable. *)
Definition fromBase26 (s : jsstring) : outcome Z := fromBase26_from 0 s.

(** The [while (n > 0)] loop of [toBase26]; [fuel] bounds the iterations. *)
Fixpoint toBase26_loop (fuel : nat) (n : Z) (s : jsstring) : jsstring :=
  match fuel with
  | O => s
  | S fuel' =>
      if n >? 0 then
        let n1 := n - 1 in
        toBase26_loop fuel' (n1 / 26) ((charCodeA + n1 mod 26) :: s)
      else s
  end.

(** A number of iterations that a loop dividing [n] by 10 or by 26 cannot
    use up: [n] at least halves at every iteration. *)
Definition halving_fuel (n : Z) : nat := S (Z.to_nat (Z.log2 n)).

(** [toBase26(num)]. *)
Definition toBase26 (num : Z) : jsstring :=
  toBase26_loop (halving_fuel num) num [].

(** ** Decimal numbers *)

(** [parseInt(s, 10)] on a string of digits: the number it denotes. *)
Definition parseInt_step (n : Z) (c : codepoint) : Z := n * 10 + (c - charCode_0).
Definition parseInt (s : jsstring) : Z := fold_left parseInt_step s 0.

Fixpoint digits_loop (fuel : nat) (n : Z) (acc : jsstring) : jsstring :=
  match fuel with
  | O => acc
  | S fuel' =>
      let acc' := (charCode_0 + n mod 10) :: acc in
      if n / 10 =? 0 then acc' else digits_loop fuel' (n / 10) acc'
  end.

(** [n.toString()] for an integer [n]: its decimal digits, after a minus
    sign when it is negative. *)
Definition Number_toString (n : Z) : jsstring :=
  if n <? 0 then 45 :: digits_loop (halving_fuel (- n)) (- n) []
  else digits_loop (halving_fuel n) n [].

(** ** The cell-name decoder *)

Module Cell.
Record t : Type := make { col : option Z; row : option Z }.
End Cell.

(** [parseCell(s)] (the function, not the method of [Parser]). *)
Definition parseCell (s : jsstring) : outcome Cell.t :=
  match match_cell s with
  | None => Throw (js "invalid cell name: " ++ s)
  | Some (m1, m2) =>
      let* col := (if truthy_str m1
                   then let* n := fromBase26 m1 in Ret (Some n)
                   else Ret None) in
      let row := if truthy_str m2 then Some (parseInt m2) else None in
      Ret (Cell.make col row)
  end.

(** ** Escaping of sheet names *)

Definition quote : codepoint := 39.

(** [s.replace(/'/g, "''")]. *)
Definition double_quotes (s : jsstring) : jsstring :=
  flat_map (fun c => if c =? quote then [quote; quote] else [c]) s.

Definition escapeSheetName (s : jsstring) : jsstring :=
  if reCell_test s then [quote] ++ s ++ [quote]
  else if test_alnum_plus s then s
  else [quote] ++ double_quotes s ++ [quote].

(** ** The parser *)

Definition EOF : jsstring := js "EOF".

(** The double quote of the error messages. *)
Definition dquote : codepoint := 34.

(** The messages [expected "!", but got ...] and the like: [expected],
    the quoted token, then [tail]. *)
Definition expected (token : string) (tail : string) : jsstring :=
  js "expected " ++ [dquote] ++ js token ++ [dquote] ++ js tail.

Module InterimResult.
Record t : Type :=
  make { sheetName : option jsstring;
         cell1 : option jsstring;
         cell2 : option jsstring }.
End InterimResult.

Module Parser.

Record t : Type := make { buf : jsstring; index : nat }.

(** [new Parser(s)]. *)
Definition constructor (s : jsstring) : t := make s 0.

Definition peek (p : t) : jsstring :=
  match nth_error (buf p) (index p) with
  | Some c => [c]
  | None => EOF
  end.

Definition next (p : t) : t := make (buf p) (S (index p)).

(** The number of characters from the cursor to the end of the input. *)
Definition remaining (p : t) : nat := (length (buf p) - index p)%nat.

(** The [for (;;)] loop of [parseName].  Every iteration that does not
    leave the loop moves the cursor over one character of the input, so
    [remaining p] iterations are never used up. *)
Fixpoint parseName_loop (fuel : nat) (name : jsstring) (p : t)
  : jsstring * t :=
  let ch := peek p in
  if jseqb ch EOF || negb (test_alnum ch) then (name, p)
  else match fuel with
       | O => (name, p)
       | S fuel' => parseName_loop fuel' (name ++ ch) (next p)
       end.

Definition parseName (p : t) : outcome (jsstring * t) :=
  let (name, p) := parseName_loop (remaining p) [] p in
  if jseqb name [] then Throw (js "invalid cell name")
  else Ret (name, p).

(** The [for (;;)] loop of [parseQuotedName].  The loop has no test for
    the end of the input: there [peek()] is ["EOF"], which is not a quote,
    so the iteration appends it to [name] and goes on; an engine stops such
    a run only when the string outgrows its limits, which is no error of
    the parser.  [Diverges] stands for a loop that used up its [fuel]. *)
Fixpoint parseQuotedName_loop (fuel : nat) (name : jsstring) (p : t)
  : outcome (jsstring * t) :=
  match fuel with
  | O => Diverges
  | S fuel' =>
      let ch := peek p in
      if jseqb ch [quote] then
        let p := next p in
        if negb (jseqb (peek p) [quote]) then Ret (name, p)
        else parseQuotedName_loop fuel' (name ++ ch) (next p)
      else parseQuotedName_loop fuel' (name ++ ch) (next p)
  end.

(** [parseQuotedName()].  The loop either leaves within [remaining p]
    iterations or has reached the end of the input by then, and from there
    it never leaves (lemmas [parseQuotedName_loop_terminated] and
    [parseQuotedName_loop_diverges] below). *)
Definition parseQuotedName (p : t) : outcome (jsstring * t) :=
  if negb (jseqb (peek p) [quote])
  then Throw (js "unexpected character: " ++ peek p)
  else
    let p := next p in
    let* (name, p) := parseQuotedName_loop (S (remaining p)) [] p in
    if jseqb name [] then Throw (js "invalid sheet name")
    else Ret (name, p).

Definition parseSheetNameAndCell (p : t) : outcome InterimResult.t :=
  let* (sheetName, p) := parseQuotedName p in
  if jseqb (peek p) EOF then
    Ret (InterimResult.make (Some sheetName) None None)
  else if negb (jseqb (peek p) (js "!")) then
    Throw (expected "!" ", but got " ++ peek p)
  else
    let p := next p in
    let* (cell1, p) := parseName p in
    if jseqb (peek p) EOF then
      let cell2 := cell1 in
      Ret (InterimResult.make (Some sheetName) (Some cell1) (Some cell2))
    else if negb (jseqb (peek p) (js ":")) then
      Throw (expected ":" ", but got " ++ peek p)
    else
      let p := next p in
      let* (cell2, p) := parseName p in
      if negb (jseqb (peek p) EOF) then
        Throw (js "expected EOF, but got " ++ peek p)
      else
        Ret (InterimResult.make (Some sheetName) (Some cell1) (Some cell2)).

Definition parseCell (p : t) : outcome InterimResult.t :=
  let* (name, p) := parseName p in
  let ch := peek p in
  if jseqb ch EOF then
    if reCell_test name then
      Ret (InterimResult.make None (Some name) (Some name))
    else
      Ret (InterimResult.make (Some name) None None)
  else if jseqb ch (js "!") then
    let p := next p in
    let sheetName := name in
    let* (cell1, p) := parseName p in
    let ch := peek p in
    if jseqb ch EOF then
      let cell2 := cell1 in
      Ret (InterimResult.make (Some sheetName) (Some cell1) (Some cell2))
    else if jseqb ch (js ":") then
      let p := next p in
      let* (cell2, p) := parseName p in
      if negb (jseqb (peek p) EOF) then
        Throw (js "expected EOF, but got " ++ peek p)
      else
        Ret (InterimResult.make (Some sheetName) (Some cell1) (Some cell2))
    else Throw (js "unexpected character: " ++ ch)
  else if jseqb ch (js ":") then
    let p := next p in
    let cell1 := name in
    let* (cell2, p) := parseName p in
    if negb (jseqb (peek p) EOF) then
      Throw (js "expected EOF, but got " ++ peek p)
    else
      Ret (InterimResult.make None (Some cell1) (Some cell2))
  else Throw (expected "!" " or " ++ [dquote] ++ js ":" ++ [dquote]
              ++ js ", but got " ++ ch).

Definition parse (p : t) : outcome InterimResult.t :=
  let ch := peek p in
  if jseqb ch [quote] then parseSheetNameAndCell p
  else if test_alnum ch then parseCell p
  else Throw (js "unexpected character: " ++ ch).

End Parser.

(** ** The range *)

Module A1Notation.

Record t : Type :=
  make { sheetName : option jsstring;
         left : option Z;
         top : option Z;
         right : option Z;
         bottom : option Z }.

(** [new A1Notation(sheetName, left, top, right, bottom)]; an omitted
    argument is [None].  The body has no [throw]. *)
Definition constructor (sheetName : option jsstring)
    (left top right bottom : option Z) : t :=
  match right, bottom with
  | None, None => make sheetName left top left top
  | _, _ => make sheetName left top right bottom
  end.

(** The body of [A1Notation.parse(s)] after the call of the parser, whose
    result is [r]. *)
Definition parse_cells (r : InterimResult.t) : outcome t :=
  let* (top, left) :=
    (match InterimResult.cell1 r with
     | Some cell1 =>
         if truthy_str cell1
         then let* c := parseCell cell1 in Ret (Cell.row c, Cell.col c)
         else Ret (None, None)
     | None => Ret (None, None)
     end) in
  let* (bottom, right) :=
    (match InterimResult.cell2 r with
     | Some cell2 =>
         if truthy_str cell2
         then let* c := parseCell cell2 in Ret (Cell.row c, Cell.col c)
         else Ret (None, None)
     | None => Ret (None, None)
     end) in
  Ret (constructor (InterimResult.sheetName r) left top right bottom).

(** [A1Notation.parse(s)]. *)
Definition parse (s : jsstring) : outcome t :=
  let parser := Parser.constructor s in
  let* r := Parser.parse parser in
  parse_cells r.

(** [if (n) s += toBase26(n)]. *)
Definition add_col (s : jsstring) (n : option Z) : jsstring :=
  match n with
  | Some n => if negb (n =? 0) then s ++ toBase26 n else s
  | None => s
  end.

(** [if (n) s += n.toString()]. *)
Definition add_row (s : jsstring) (n : option Z) : jsstring :=
  match n with
  | Some n => if negb (n =? 0) then s ++ Number_toString n else s
  | None => s
  end.

(** [a === b] on optional numbers. *)
Definition onum_eqb (a b : option Z) : bool :=
  match a, b with
  | Some a, Some b => a =? b
  | None, None => true
  | _, _ => false
  end.

(** [this.toString()]. *)
Definition toString (this : t) : jsstring :=
  let cell1 := add_row (add_col [] (left this)) (top this) in
  let cell2 := add_row (add_col [] (right this)) (bottom this) in
  let cell :=
    if truthy_onum (left this) && truthy_onum (right this)
       && truthy_onum (top this) && truthy_onum (bottom this) then
      if onum_eqb (left this) (right this) && onum_eqb (top this) (bottom this)
      then cell1
      else cell1 ++ js ":" ++ cell2
    else if truthy_str cell1 && truthy_str cell2 then
      cell1 ++ js ":" ++ cell2
    else cell1 in
  match sheetName this with
  | Some name =>
      if truthy_str name then
        if truthy_str cell then escapeSheetName name ++ js "!" ++ cell
        else escapeSheetName name
      else cell
  | None => cell
  end.

End A1Notation.

(** ** The implementation of [src/mod.ts]

    [parseQuotedName], [parseName], [parseCell], [fromBase26], [toBase26],
    [escapeSheetName] and [toString] have the same text in both files (up to
    an [else] in [fromBase26]) and are shared.  The constructor, the method
    [Parser.parse] and [A1Notation.parse] differ. *)

Module ModTs.

(** [a || b] on optional numbers. *)
Definition or_num (a b : option Z) : option Z :=
  if truthy_onum a then a else b.

(** [new A1Notation(sheetName, top, bottom, left, right)]: the parameters
    come in this order in [src/mod.ts]. *)
Definition constructor (sheetName : option jsstring)
    (top bottom left right : option Z) : A1Notation.t :=
  A1Notation.make sheetName (or_num left top) top (or_num right left) bottom.

(** The method [Parser.parse] of [src/mod.ts]. *)
Definition Parser_parse (p : Parser.t) : outcome InterimResult.t :=
  let ch := Parser.peek p in
  if jseqb ch [quote] then
    let* (sheetName, p) := Parser.parseQuotedName p in
    if jseqb (Parser.peek p) EOF then
      Ret (InterimResult.make (Some sheetName) None None)
    else if negb (jseqb (Parser.peek p) (js "!")) then
      Throw (expected "!" ", but got " ++ Parser.peek p)
    else
      let p := Parser.next p in
      let* (cell1, p) := Parser.parseName p in
      if jseqb (Parser.peek p) EOF then
        Ret (InterimResult.make (Some sheetName) (Some cell1) None)
      else if negb (jseqb (Parser.peek p) (js ":")) then
        Throw (expected ":" ", but got " ++ Parser.peek p)
      else
        let p := Parser.next p in
        let* (cell2, p) := Parser.parseName p in
        if negb (jseqb (Parser.peek p) EOF) then
          Throw (js "expected EOF, but got " ++ Parser.peek p)
        else
          Ret (InterimResult.make (Some sheetName) (Some cell1) (Some cell2))
  else if test_alnum ch then
    let* (name, p) := Parser.parseName p in
    let ch := Parser.peek p in
    if jseqb ch EOF then
      if reCell_test name then
        Ret (InterimResult.make None (Some name) (Some name))
      else
        Ret (InterimResult.make (Some name) None None)
    else if jseqb ch (js "!") then
      let p := Parser.next p in
      let sheetName := name in
      let* (cell1, p) := Parser.parseName p in
      let ch := Parser.peek p in
      if jseqb ch EOF then
        let cell2 := cell1 in
        Ret (InterimResult.make (Some sheetName) (Some cell1) (Some cell2))
      else if jseqb ch (js ":") then
        let p := Parser.next p in
        let* (cell2, p) := Parser.parseName p in
        if negb (jseqb (Parser.peek p) EOF) then
          Throw (js "expected EOF, but got " ++ Parser.peek p)
        else
          Ret (InterimResult.make (Some sheetName) (Some cell1) (Some cell2))
      else Throw (js "unexpected character: " ++ ch)
    else if jseqb ch (js ":") then
      let p := Parser.next p in
      let cell1 := name in
      let* (cell2, p) := Parser.parseName p in
      if negb (jseqb (Parser.peek p) EOF) then
        Throw (js "expected EOF, but got " ++ Parser.peek p)
      else
        Ret (InterimResult.make None (Some cell1) (Some cell2))
    else Throw (expected "!" " or " ++ [dquote] ++ js ":" ++ [dquote]
                ++ js ", but got " ++ ch)
  else Throw (js "unexpected character: " ++ ch).

(** [A1Notation.parse(s)] of [src/mod.ts]: the fields of a fresh object
    are assigned one by one. *)
Definition parse (s : jsstring) : outcome A1Notation.t :=
  let parser := Parser.constructor s in
  let* r := Parser_parse parser in
  let a1 := constructor None None None None None in
  let a1 :=
    if truthy_ostr (InterimResult.sheetName r)
    then A1Notation.make (InterimResult.sheetName r) (A1Notation.left a1)
           (A1Notation.top a1) (A1Notation.right a1) (A1Notation.bottom a1)
    else a1 in
  let* a1 :=
    (match InterimResult.cell1 r with
     | Some cell1 =>
         if truthy_str cell1 then
           let* c := parseCell cell1 in
           Ret (A1Notation.make (A1Notation.sheetName a1) (Cell.col c)
                  (Cell.row c) (A1Notation.right a1) (A1Notation.bottom a1))
         else Ret a1
     | None => Ret a1
     end) in
  match InterimResult.cell2 r with
  | Some cell2 =>
      if truthy_str cell2 then
        let* c := parseCell cell2 in
        Ret (A1Notation.make (A1Notation.sheetName a1) (A1Notation.left a1)
               (A1Notation.top a1) (Cell.col c) (Cell.row c))
      else Ret a1
  | None => Ret a1
  end.

End ModTs.

(** * Properties *)

(** ** Strings *)

Lemma jseqb_eq (a b : jsstring) : jseqb a b = true <-> a = b.
Proof.
  revert b; induction a as [|x a IH]; intros [|y b]; simpl;
    try (split; [discriminate | discriminate]); try tauto.
  rewrite andb_true_iff, Z.eqb_eq, IH.
  split; [intros [-> ->]; reflexivity | intros [= -> ->]; auto].
Qed.

Lemma jseqb_refl (a : jsstring) : jseqb a a = true.
Proof. apply jseqb_eq; reflexivity. Qed.

Lemma jseqb_nil (a : jsstring) : jseqb a [] = negb (truthy_str a).
Proof. destruct a; reflexivity. Qed.

(** ** The column codec *)

Lemma pow2_fuel (n : Z) : n < 2 ^ Z.of_nat (halving_fuel n).
Proof.
  unfold halving_fuel.
  rewrite Nat2Z.inj_succ, Z2Nat.id by apply Z.log2_nonneg.
  destruct (Z_lt_le_dec 0 n) as [Hn|Hn].
  - apply Z.log2_spec; assumption.
  - rewrite Z.log2_nonpos by assumption. simpl. lia.
Qed.

Lemma pow2_step (f : nat) (n d : Z) :
  2 <= d -> 0 <= n < 2 ^ Z.of_nat (S f) -> 0 <= n / d < 2 ^ Z.of_nat f.
Proof.
  intros Hd [H0 Hn].
  rewrite Nat2Z.inj_succ, Z.pow_succ_r in Hn by lia.
  assert (0 < 2 ^ Z.of_nat f) by (apply Z.pow_pos_nonneg; lia).
  split.
  - apply Z.div_pos; lia.
  - apply Z.div_lt_upper_bound; nia.
Qed.

(** The loop of [toBase26] does not depend on the fuel once there is
    enough of it: the bound of [halving_fuel] is never reached. *)
Lemma toBase26_loop_fuel (f g : nat) (n : Z) (s : jsstring) :
  n < 2 ^ Z.of_nat f -> n < 2 ^ Z.of_nat g ->
  toBase26_loop f n s = toBase26_loop g n s.
Proof.
  revert g n s; induction f as [|f IH]; intros [|g] n s Hf Hg;
    cbn [toBase26_loop]; change (2 ^ Z.of_nat 0) with 1 in *.
  - reflexivity.
  - destruct (n >? 0) eqn:E; [apply Z.gtb_lt in E; lia | reflexivity].
  - destruct (n >? 0) eqn:E; [apply Z.gtb_lt in E; lia | reflexivity].
  - destruct (n >? 0) eqn:E; [apply Z.gtb_lt in E | reflexivity].
    apply IH.
    + apply (@pow2_step f (n - 1) 26); lia.
    + apply (@pow2_step g (n - 1) 26); lia.
Qed.

(** [toBase26] satisfies the equation of the [while] loop. *)
Lemma toBase26_loop_unfold (n : Z) (s : jsstring) :
  toBase26_loop (halving_fuel n) n s =
  if n >? 0
  then toBase26_loop (halving_fuel ((n - 1) / 26)) ((n - 1) / 26)
         ((charCodeA + (n - 1) mod 26) :: s)
  else s.
Proof.
  unfold halving_fuel at 1; cbn [toBase26_loop].
  destruct (n >? 0) eqn:E; [apply Z.gtb_lt in E | reflexivity].
  apply toBase26_loop_fuel; [ | apply pow2_fuel].
  pose proof (pow2_fuel n) as H. unfold halving_fuel in H.
  apply (@pow2_step _ (n - 1) 26); lia.
Qed.

Lemma fromBase26_toBase26_loop (f : nat) (n : Z) (s : jsstring) :
  0 <= n < 2 ^ Z.of_nat f ->
  fromBase26_from 0 (toBase26_loop f n s) = fromBase26_from n s.
Proof.
  revert n s; induction f as [|f IH]; intros n s Hn; cbn [toBase26_loop].
  - change (2 ^ Z.of_nat 0) with 1 in Hn. replace n with 0 by lia. reflexivity.
  - destruct (n >? 0) eqn:E; [apply Z.gtb_lt in E | replace n with 0; [reflexivity|]].
    + rewrite IH by (apply (@pow2_step f (n - 1) 26); lia).
      cbn [fromBase26_from]. unfold charCodeA, charCodeZ.
      pose proof (Z.mod_pos_bound (n - 1) 26 ltac:(lia)) as Hm.
      replace ((65 <=? 65 + (n - 1) mod 26) && (65 + (n - 1) mod 26 <=? 90))
        with true by (symmetry; apply andb_true_iff; split; apply Z.leb_le; lia).
      f_equal. pose proof (Z.div_mod (n - 1) 26 ltac:(lia)). lia.
    + rewrite Z.gtb_ltb in E. apply Z.ltb_ge in E. lia.
Qed.

Lemma toBase26_loop_upper (f : nat) (n : Z) (s : jsstring) :
  forallb is_upper s = true -> forallb is_upper (toBase26_loop f n s) = true.
Proof.
  revert n s; induction f as [|f IH]; intros n s Hs; cbn [toBase26_loop];
    [assumption|].
  destruct (n >? 0); [ | assumption].
  apply IH. cbn [forallb]. rewrite Hs, andb_true_r.
  pose proof (Z.mod_pos_bound (n - 1) 26 ltac:(lia)).
  unfold is_upper, charCodeA, charCodeZ.
  apply andb_true_iff; split; apply Z.leb_le; lia.
Qed.

Lemma fromBase26_toBase26 (n : Z) : 0 <= n -> fromBase26 (toBase26 n) = Ret n.
Proof.
  intros Hn. unfold fromBase26, toBase26.
  rewrite fromBase26_toBase26_loop by (split; [assumption | apply pow2_fuel]).
  reflexivity.
Qed.

Lemma toBase26_upper (n : Z) : forallb is_upper (toBase26 n) = true.
Proof. apply toBase26_loop_upper; reflexivity. Qed.

(** C4: for every integer [n] from 1 to 18278, decoding the encoding of [n]
    returns [n], and the encoding is made of the upper-case letters A to Z
    only. *)
Theorem C4_column_codec_inverse (n : Z) :
  1 <= n <= 18278 ->
  fromBase26 (toBase26 n) = Ret n /\
  forallb (fun c => (charCodeA <=? c) && (c <=? charCodeZ)) (toBase26 n) = true.
Proof.
  intros Hn; split.
  - apply fromBase26_toBase26; lia.
  - apply toBase26_upper.
Qed.

Lemma C4_column_codec_inverse_witness :
  1 <= 18278 <= 18278 /\
  (fromBase26 (toBase26 18278) = Ret 18278 /\
   forallb (fun c => (charCodeA <=? c) && (c <=? charCodeZ)) (toBase26 18278)
   = true).
Proof. split; [lia | apply (@C4_column_codec_inverse 18278); lia]. Defined.

(** ** The cursor of the parser *)

(** The part of the input that is still to be read. *)
Definition input (p : Parser.t) : jsstring :=
  skipn (Parser.index p) (Parser.buf p).

Lemma nth_error_skipn (A : Type) (i : nat) (l : list A) :
  nth_error l i = match skipn i l with x :: _ => Some x | [] => None end.
Proof.
  revert l; induction i as [|i IH]; intros [|x l]; simpl; auto.
Qed.

Lemma skipn_S_tl (A : Type) (i : nat) (l : list A) :
  skipn (S i) l = tl (skipn i l).
Proof.
  revert l; induction i as [|i IH]; intros [|x l]; try reflexivity.
  change (skipn (S (S i)) (x :: l)) with (skipn (S i) l).
  change (skipn (S i) (x :: l)) with (skipn i l). apply IH.
Qed.

Lemma peek_input (p : Parser.t) :
  Parser.peek p = match input p with c :: _ => [c] | [] => EOF end.
Proof.
  unfold Parser.peek, input. rewrite nth_error_skipn.
  destruct (skipn _ _); reflexivity.
Qed.

Lemma input_next (p : Parser.t) : input (Parser.next p) = tl (input p).
Proof. unfold input, Parser.next; simpl. apply skipn_S_tl. Qed.

Lemma remaining_input (p : Parser.t) : Parser.remaining p = length (input p).
Proof. unfold Parser.remaining, input. symmetry. apply length_skipn. Qed.

Lemma input_constructor (s : jsstring) : input (Parser.constructor s) = s.
Proof. reflexivity. Qed.

Lemma peek_cons (p : Parser.t) (c : codepoint) (rest : jsstring) :
  input p = c :: rest -> Parser.peek p = [c].
Proof. intros H. rewrite peek_input, H. reflexivity. Qed.

Lemma peek_nil (p : Parser.t) : input p = [] -> Parser.peek p = EOF.
Proof. intros H. rewrite peek_input, H. reflexivity. Qed.

Lemma input_next_cons (p : Parser.t) (c : codepoint) (rest : jsstring) :
  input p = c :: rest -> input (Parser.next p) = rest.
Proof. intros H. rewrite input_next, H. reflexivity. Qed.

Lemma input_next_nil (p : Parser.t) : input p = [] -> input (Parser.next p) = [].
Proof. intros H. rewrite input_next, H. reflexivity. Qed.

(** A character of the input is never the end-of-input marker. *)
Lemma char_not_EOF (c : codepoint) : jseqb [c] EOF = false.
Proof. unfold EOF; simpl. apply andb_false_r. Qed.

Lemma jseqb_char (c d : codepoint) : jseqb [c] [d] = (c =? d).
Proof. simpl. apply andb_true_r. Qed.

Lemma test_alnum_char (c : codepoint) : test_alnum [c] = is_alnum c.
Proof. unfold test_alnum; simpl. apply orb_false_r. Qed.

(** ** Runs of characters *)

Lemma span_forall (p : codepoint -> bool) (s : jsstring) :
  forallb p (fst (span p s)) = true.
Proof.
  induction s as [|c s IH]; simpl; [reflexivity|].
  destruct (p c) eqn:E; [ | reflexivity].
  destruct (span p s); simpl in *. rewrite E, IH. reflexivity.
Qed.

Lemma span_app (p : codepoint -> bool) (s : jsstring) :
  fst (span p s) ++ snd (span p s) = s.
Proof.
  induction s as [|c s IH]; simpl; [reflexivity|].
  destruct (p c); [ | reflexivity].
  destruct (span p s); simpl in *. rewrite IH. reflexivity.
Qed.

(** Whether [s] is empty or starts with a character that fails [p]. *)
Definition stops (p : codepoint -> bool) (s : jsstring) : bool :=
  match s with [] => true | c :: _ => negb (p c) end.

Lemma span_stops (p : codepoint -> bool) (a b : jsstring) :
  forallb p a = true -> stops p b = true -> span p (a ++ b) = (a, b).
Proof.
  intros Ha Hb; induction a as [|c a IH]; simpl in *.
  - destruct b as [|d b]; [reflexivity|]. simpl in *.
    destruct (p d); [discriminate | reflexivity].
  - apply andb_true_iff in Ha as [Hc Ha]. rewrite Hc, (IH Ha). reflexivity.
Qed.

(** ** The plain-name rule *)

Lemma parseName_loop_spec (fuel : nat) (name : jsstring) (p : Parser.t) :
  (length (input p) <= fuel)%nat ->
  exists p',
    Parser.parseName_loop fuel name p
    = (name ++ fst (span is_alnum (input p)), p')
    /\ input p' = snd (span is_alnum (input p)).
Proof.
  revert name p; induction fuel as [|fuel IH]; intros name p Hlen.
  - destruct (input p) as [|c rest] eqn:E; [ | simpl in Hlen; lia].
    exists p. simpl. rewrite (peek_nil _ E), jseqb_refl. simpl.
    rewrite app_nil_r. auto.
  - destruct (input p) as [|c rest] eqn:E; cbn [Parser.parseName_loop].
    + exists p. rewrite (peek_nil _ E), jseqb_refl. simpl.
      rewrite app_nil_r. auto.
    + rewrite (peek_cons _ E), char_not_EOF, test_alnum_char. simpl.
      destruct (is_alnum c) eqn:Ec; simpl.
      * destruct (IH (name ++ [c]) (Parser.next p)) as [p' [H1 H2]].
        { rewrite (input_next_cons _ E). simpl in Hlen. lia. }
        rewrite (input_next_cons _ E) in H1, H2.
        exists p'. rewrite H1. destruct (span is_alnum rest) as [a b]; simpl in *.
        rewrite <- app_assoc. auto.
      * exists p. rewrite app_nil_r. auto.
Qed.

(** [parseName()] reads the longest run of alphanumeric characters at the
    cursor, and throws when that run is empty. *)
Lemma parseName_spec (p : Parser.t) :
  match fst (span is_alnum (input p)) with
  | [] => Parser.parseName p = Throw (js "invalid cell name")
  | name =>
      exists p', Parser.parseName p = Ret (name, p')
                 /\ input p' = snd (span is_alnum (input p))
  end.
Proof.
  unfold Parser.parseName.
  destruct (@parseName_loop_spec (Parser.remaining p) [] p) as [p' [H1 H2]].
  { rewrite remaining_input. lia. }
  rewrite H1. simpl.
  destruct (fst (span is_alnum (input p))) as [|c a]; simpl; eauto.
Qed.

Lemma parseName_run (p : Parser.t) (a b : jsstring) :
  input p = a ++ b -> a <> [] ->
  forallb is_alnum a = true -> stops is_alnum b = true ->
  exists p', Parser.parseName p = Ret (a, p') /\ input p' = b.
Proof.
  intros E Ha Hall Hb. pose proof (parseName_spec p) as H.
  rewrite E, (span_stops _ _ _ Hall Hb) in H. simpl in H.
  destruct a; [congruence | exact H].
Qed.

Lemma parseName_Ret (p p' : Parser.t) (name : jsstring) :
  Parser.parseName p = Ret (name, p') -> test_alnum_plus name = true.
Proof.
  pose proof (parseName_spec p) as H. pose proof (span_forall is_alnum (input p)) as F.
  destruct (fst (span is_alnum (input p))) as [|c a].
  - rewrite H. discriminate.
  - destruct H as [q [-> _]]. intros [= <- <-]. exact F.
Qed.

(** ** The quoted-name rule *)

(** At the end of the input the loop of [parseQuotedName] never leaves,
    whatever the fuel. *)
Lemma parseQuotedName_loop_EOF (fuel : nat) (name : jsstring) (p : Parser.t) :
  input p = [] -> Parser.parseQuotedName_loop fuel name p = Diverges.
Proof.
  revert name p; induction fuel as [|fuel IH]; intros name p E; simpl.
  - reflexivity.
  - rewrite (peek_nil _ E). cbn [jseqb EOF js map list_ascii_of_string].
    replace (jseqb EOF [quote]) with false by reflexivity.
    apply IH. apply input_next_nil; assumption.
Qed.

(** What the loop reads from the rest [s] of the input: the name and what
    follows the closing quote; [None] when [s] has no closing quote. *)
Fixpoint unquote (s : jsstring) : option (jsstring * jsstring) :=
  match s with
  | [] => None
  | c :: s' =>
      if c =? quote then
        match s' with
        | [] => Some ([], [])
        | d :: s'' =>
            if d =? quote then
              match unquote s'' with
              | Some (a, b) => Some (quote :: a, b)
              | None => None
              end
            else Some ([], s')
        end
      else
        match unquote s' with
        | Some (a, b) => Some (c :: a, b)
        | None => None
        end
  end.

(** Without a closing quote the loop never leaves, whatever the fuel. *)
Lemma parseQuotedName_loop_unterminated (fuel : nat) (name : jsstring)
    (p : Parser.t) :
  unquote (input p) = None ->
  Parser.parseQuotedName_loop fuel name p = Diverges.
Proof.
  revert name p; induction fuel as [|fuel IH]; intros name p U;
    cbn [Parser.parseQuotedName_loop]; [reflexivity|].
  destruct (input p) as [|c s'] eqn:E.
  - rewrite (peek_nil _ E).
    replace (jseqb EOF [quote]) with false by reflexivity.
    apply IH. rewrite (input_next_nil _ E). reflexivity.
  - rewrite (peek_cons _ E), jseqb_char. cbn [unquote] in U.
    pose proof (input_next_cons _ E) as E1.
    destruct (c =? quote) eqn:Ec.
    + destruct s' as [|d s'']; [discriminate|].
      rewrite (peek_cons _ E1), jseqb_char.
      destruct (d =? quote) eqn:Ed; [ | discriminate]. simpl.
      apply IH. rewrite (input_next_cons _ E1).
      destruct (unquote s'') as [[a b]|]; [discriminate | reflexivity].
    + apply IH. rewrite E1.
      destruct (unquote s') as [[a b]|]; [discriminate | reflexivity].
Qed.

(** With a closing quote the loop leaves within [length (input p)]
    iterations, with the name it has read. *)
Lemma parseQuotedName_loop_terminated (fuel : nat) (name : jsstring)
    (p : Parser.t) (a b : jsstring) :
  (length (input p) < fuel)%nat ->
  unquote (input p) = Some (a, b) ->
  exists p', Parser.parseQuotedName_loop fuel name p = Ret (name ++ a, p')
             /\ input p' = b.
Proof.
  revert name p a; induction fuel as [|fuel IH]; intros name p a Hlen U;
    [lia|]. cbn [Parser.parseQuotedName_loop].
  destruct (input p) as [|c s'] eqn:E; [discriminate|].
  rewrite (peek_cons _ E), jseqb_char. cbn [unquote] in U.
  pose proof (input_next_cons _ E) as E1. simpl in Hlen.
  destruct (c =? quote) eqn:Ec.
  - apply Z.eqb_eq in Ec; subst c.
    destruct s' as [|d s''].
    + injection U as <- <-. rewrite (peek_nil _ E1).
      replace (jseqb EOF [quote]) with false by reflexivity. simpl.
      exists (Parser.next p). rewrite app_nil_r. auto.
    + rewrite (peek_cons _ E1), jseqb_char.
      destruct (d =? quote) eqn:Ed; simpl.
      * destruct (unquote s'') as [[a' b']|] eqn:U'; [ | discriminate].
        injection U as <- <-.
        destruct (IH (name ++ [quote]) (Parser.next (Parser.next p)) a')
          as [p' [H1 H2]].
        { rewrite (input_next_cons _ E1). simpl in Hlen. lia. }
        { rewrite (input_next_cons _ E1). assumption. }
        exists p'. rewrite H1, <- app_assoc. auto.
      * injection U as <- <-. exists (Parser.next p).
        rewrite app_nil_r. auto.
  - destruct (unquote s') as [[a' b']|] eqn:U'; [ | discriminate].
    injection U as <- <-.
    destruct (IH (name ++ [c]) (Parser.next p) a') as [p' [H1 H2]].
    { rewrite E1. lia. }
    { rewrite E1. assumption. }
    exists p'. rewrite H1, <- app_assoc. auto.
Qed.

(** The verdict [Diverges] of [parseQuotedName] is sound: when the loop has
    not left with the fuel given there, it leaves with no fuel at all. *)
Lemma parseQuotedName_loop_diverges (name : jsstring) (p : Parser.t) :
  Parser.parseQuotedName_loop (S (Parser.remaining p)) name p = Diverges ->
  forall fuel, Parser.parseQuotedName_loop fuel name p = Diverges.
Proof.
  intros H fuel. destruct (unquote (input p)) as [[a b]|] eqn:U.
  - destruct (@parseQuotedName_loop_terminated
                (S (Parser.remaining p)) name p a b) as [p' [E _]].
    + rewrite remaining_input. lia.
    + exact U.
    + rewrite E in H. discriminate.
  - apply parseQuotedName_loop_unterminated; exact U.
Qed.

(** [parseQuotedName()] at an opening quote followed by [s]. *)
Lemma parseQuotedName_spec (p : Parser.t) (s : jsstring) :
  input p = quote :: s ->
  match unquote s with
  | None => Parser.parseQuotedName p = Diverges
  | Some ([], _) => Parser.parseQuotedName p = Throw (js "invalid sheet name")
  | Some (name, b) =>
      exists p', Parser.parseQuotedName p = Ret (name, p') /\ input p' = b
  end.
Proof.
  intros E. unfold Parser.parseQuotedName.
  rewrite (peek_cons _ E), jseqb_refl. cbn [negb].
  pose proof (input_next_cons _ E) as E1.
  destruct (unquote s) as [[a b]|] eqn:U.
  - destruct (@parseQuotedName_loop_terminated
                (S (Parser.remaining (Parser.next p))) [] (Parser.next p) a b)
      as [p' [H1 H2]].
    { rewrite remaining_input. lia. }
    { rewrite E1. assumption. }
    rewrite H1. simpl. destruct a as [|c a]; simpl; eauto.
  - rewrite parseQuotedName_loop_unterminated by (rewrite E1; assumption).
    reflexivity.
Qed.

Lemma parseQuotedName_Ret (p p' : Parser.t) (name : jsstring) :
  Parser.parseQuotedName p = Ret (name, p') -> truthy_str name = true.
Proof.
  unfold Parser.parseQuotedName.
  destruct (negb (jseqb (Parser.peek p) [quote])); [discriminate|].
  destruct (Parser.parseQuotedName_loop _ _ _) as [[n q]| |]; cbn [bind];
    try discriminate.
  rewrite jseqb_nil. destruct (truthy_str n) eqn:E; simpl; [ | discriminate].
  intros [= <- <-]. exact E.
Qed.

Lemma parse_quoted (s : jsstring) :
  A1Notation.parse (quote :: s)
  = let* r := Parser.parseSheetNameAndCell (Parser.constructor (quote :: s)) in
    A1Notation.parse_cells r.
Proof. reflexivity. Qed.

(** An input that opens a quoted name and never closes it: [parse] does not
    return and does not throw. *)
Lemma parse_unterminated (s : jsstring) :
  unquote s = None -> A1Notation.parse (quote :: s) = Diverges.
Proof.
  intros U. rewrite parse_quoted. unfold Parser.parseSheetNameAndCell.
  pose proof (@parseQuotedName_spec (Parser.constructor (quote :: s)) s
                eq_refl) as H.
  rewrite U in H. rewrite H. reflexivity.
Qed.

(** An input that opens a quoted name and closes it at once. *)
Lemma parse_empty_quoted_name (s b : jsstring) :
  unquote s = Some ([], b) ->
  A1Notation.parse (quote :: s) = Throw (js "invalid sheet name").
Proof.
  intros U. rewrite parse_quoted. unfold Parser.parseSheetNameAndCell.
  pose proof (@parseQuotedName_spec (Parser.constructor (quote :: s)) s
                eq_refl) as H.
  rewrite U in H. rewrite H. reflexivity.
Qed.

Lemma toBase26_length (n : Z) :
  1 <= n <= 18278 -> (1 <= length (toBase26 n) <= 3)%nat.
Proof.
  intros Hn. unfold toBase26. rewrite toBase26_loop_unfold.
  replace (n >? 0) with true by (symmetry; apply Z.gtb_lt; lia).
  assert (H1 : 0 <= (n - 1) / 26 < 703).
  { split; [apply Z.div_pos; lia | apply Z.div_lt_upper_bound; lia]. }
  set (n1 := (n - 1) / 26) in *. rewrite toBase26_loop_unfold.
  destruct (n1 >? 0) eqn:E1; [apply Z.gtb_lt in E1 | simpl; lia].
  assert (H2 : 0 <= (n1 - 1) / 26 < 27).
  { split; [apply Z.div_pos; lia | apply Z.div_lt_upper_bound; lia]. }
  set (n2 := (n1 - 1) / 26) in *. rewrite toBase26_loop_unfold.
  destruct (n2 >? 0) eqn:E2; [apply Z.gtb_lt in E2 | simpl; lia].
  assert (H3 : (n2 - 1) / 26 = 0) by (apply Z.div_small; lia).
  rewrite H3. simpl. lia.
Qed.

(** ** Decimal numbers *)

Lemma digits_loop_digits (f : nat) (n : Z) (acc : jsstring) :
  forallb is_digit acc = true -> forallb is_digit (digits_loop f n acc) = true.
Proof.
  revert n acc; induction f as [|f IH]; intros n acc H; cbn [digits_loop];
    [assumption|].
  assert (H' : forallb is_digit ((charCode_0 + n mod 10) :: acc) = true).
  { cbn [forallb]. rewrite H, andb_true_r.
    pose proof (Z.mod_pos_bound n 10 ltac:(lia)).
    unfold is_digit, charCode_0, charCode_9.
    apply andb_true_iff; split; apply Z.leb_le; lia. }
  destruct (n / 10 =? 0); [assumption | apply IH; assumption].
Qed.

Lemma digits_loop_truthy (f : nat) (n : Z) (acc : jsstring) :
  truthy_str acc = true -> truthy_str (digits_loop f n acc) = true.
Proof.
  revert n acc; induction f as [|f IH]; intros n acc H; cbn [digits_loop];
    [assumption|].
  destruct (n / 10 =? 0); [reflexivity | apply IH; reflexivity].
Qed.

Lemma parseInt_digits_loop (f : nat) (n : Z) (acc : jsstring) :
  0 <= n < 2 ^ Z.of_nat f ->
  fold_left parseInt_step (digits_loop f n acc) 0 = fold_left parseInt_step acc n.
Proof.
  revert n acc; induction f as [|f IH]; intros n acc Hn; cbn [digits_loop].
  - change (2 ^ Z.of_nat 0) with 1 in Hn. replace n with 0 by lia. reflexivity.
  - pose proof (Z.div_mod n 10 ltac:(lia)) as Hd.
    pose proof (Z.mod_pos_bound n 10 ltac:(lia)) as Hm.
    destruct (n / 10 =? 0) eqn:E.
    + apply Z.eqb_eq in E. cbn [fold_left]. f_equal.
      unfold parseInt_step, charCode_0. lia.
    + rewrite IH by (apply (@pow2_step f n 10); lia).
      cbn [fold_left]. f_equal. unfold parseInt_step, charCode_0. lia.
Qed.

(** The decimal digits of a positive number: digits only, at least one, and
    [parseInt] reads the number back. *)
Lemma Number_toString_pos (n : Z) :
  0 < n ->
  forallb is_digit (Number_toString n) = true
  /\ truthy_str (Number_toString n) = true
  /\ parseInt (Number_toString n) = n.
Proof.
  intros Hn. unfold Number_toString.
  replace (n <? 0) with false by (symmetry; apply Z.ltb_ge; lia).
  repeat split.
  - apply digits_loop_digits; reflexivity.
  - unfold halving_fuel. cbn [digits_loop].
    destruct (n / 10 =? 0); [reflexivity | apply digits_loop_truthy; reflexivity].
  - unfold parseInt. rewrite parseInt_digits_loop; [reflexivity|].
    split; [lia | apply pow2_fuel].
Qed.

Lemma parseInt_nonneg_from (s : jsstring) (a : Z) :
  forallb is_digit s = true -> 0 <= a -> 0 <= fold_left parseInt_step s a.
Proof.
  revert a; induction s as [|c s IH]; intros a H Ha; simpl in *; [assumption|].
  apply andb_true_iff in H as [Hc Hs]. apply IH; [assumption|].
  unfold is_digit, parseInt_step, charCode_0 in *.
  apply andb_true_iff in Hc as [Hc _]. apply Z.leb_le in Hc. lia.
Qed.

Lemma parseInt_nonneg (s : jsstring) :
  forallb is_digit s = true -> 0 <= parseInt s.
Proof. intros H. apply parseInt_nonneg_from; [assumption | lia]. Qed.

(** ** The cell-name decoder *)

Lemma match_cell_Some (s m1 m2 : jsstring) :
  match_cell s = Some (m1, m2) ->
  s = m1 ++ m2 /\ forallb is_letter m1 = true /\ (length m1 <= 3)%nat
  /\ forallb is_digit m2 = true.
Proof.
  unfold match_cell. pose proof (span_forall is_letter s) as Hl.
  pose proof (span_app is_letter s) as Ha.
  destruct (span is_letter s) as [a b]; simpl in *.
  destruct ((length a <=? 3)%nat && forallb is_digit b) eqn:E; [ | discriminate].
  intros [= <- <-]. apply andb_true_iff in E as [E1 E2].
  apply Nat.leb_le in E1. auto.
Qed.

Lemma fromBase26_from_letter (n : Z) (c : codepoint) (s : jsstring) :
  is_letter c = true ->
  exists d, 1 <= d <= 26 /\ fromBase26_from n (c :: s) = fromBase26_from (n * 26 + d) s.
Proof.
  unfold is_letter, is_upper, is_lower. intros H. cbn [fromBase26_from].
  destruct ((charCodeA <=? c) && (c <=? charCodeZ)) eqn:U.
  - apply andb_true_iff in U as [U1 U2]. apply Z.leb_le in U1, U2.
    unfold charCodeA, charCodeZ in *.
    exists (c - 65 + 1). split; [lia | f_equal; lia].
  - simpl in H. rewrite H. apply andb_true_iff in H as [L1 L2].
    apply Z.leb_le in L1, L2. unfold charCode_a, charCode_z in *.
    exists (c - 97 + 1). split; [lia | f_equal; lia].
Qed.

(** One to three letters decode to a column from 1 to 18278. *)
Lemma fromBase26_range (s : jsstring) :
  forallb is_letter s = true -> s <> [] -> (length s <= 3)%nat ->
  exists n, fromBase26 s = Ret n /\ 1 <= n <= 18278.
Proof.
  intros Hl Hs Hlen. unfold fromBase26.
  destruct s as [|a [|b [|c [|d s]]]]; simpl in Hl, Hlen; try congruence; try lia;
    repeat (apply andb_true_iff in Hl as [?H Hl]).
  - destruct (@fromBase26_from_letter 0 a [] H) as [x [Hx ->]].
    eexists; split; [reflexivity | lia].
  - destruct (@fromBase26_from_letter 0 a [b] H) as [x [Hx ->]].
    destruct (@fromBase26_from_letter (0 * 26 + x) b [] H0) as [y [Hy ->]].
    eexists; split; [reflexivity | lia].
  - destruct (@fromBase26_from_letter 0 a [b; c] H) as [x [Hx ->]].
    destruct (@fromBase26_from_letter (0 * 26 + x) b [c] H0) as [y [Hy ->]].
    destruct (@fromBase26_from_letter ((0 * 26 + x) * 26 + y) c [] H1)
      as [z [Hz ->]].
    eexists; split; [reflexivity | lia].
Qed.

(** A column set by [parseCell] lies between 1 and 18278. *)
Lemma parseCell_col_range (s : jsstring) (c : Cell.t) (n : Z) :
  parseCell s = Ret c -> Cell.col c = Some n -> 1 <= n <= 18278.
Proof.
  unfold parseCell. destruct (match_cell s) as [[m1 m2]|] eqn:M; [ | discriminate].
  apply match_cell_Some in M as (_ & Hl & Hlen & _).
  destruct m1 as [|a m1]; simpl truthy_str; cbn [bind].
  - intros [= <-]. discriminate.
  - destruct (@fromBase26_range (a :: m1) Hl ltac:(discriminate) Hlen)
      as [k [-> Hk]]. cbn [bind]. intros [= <-]. simpl. intros [= <-]. exact Hk.
Qed.

(** A non-empty cell name sets a column or a row. *)
Lemma parseCell_sets (s : jsstring) (c : Cell.t) :
  parseCell s = Ret c -> truthy_str s = true ->
  Cell.col c <> None \/ Cell.row c <> None.
Proof.
  unfold parseCell. destruct (match_cell s) as [[m1 m2]|] eqn:M; [ | discriminate].
  apply match_cell_Some in M as (-> & _).
  destruct m1 as [|a m1]; simpl truthy_str; cbn [bind].
  - intros [= <-] H. simpl in *. rewrite H. right; discriminate.
  - destruct (fromBase26 (a :: m1)); cbn [bind]; try discriminate.
    intros [= <-] _. left; discriminate.
Qed.

Lemma parseCell_row_nonneg (s : jsstring) (c : Cell.t) (m : Z) :
  parseCell s = Ret c -> Cell.row c = Some m -> 0 <= m.
Proof.
  unfold parseCell. destruct (match_cell s) as [[m1 m2]|] eqn:M; [ | discriminate].
  apply match_cell_Some in M as (_ & _ & _ & Hd).
  destruct (if truthy_str m1 then _ else _) as [col| |]; cbn [bind];
    try discriminate.
  intros [= <-]. simpl. destruct (truthy_str m2); [ | discriminate].
  intros [= <-]. apply parseInt_nonneg; assumption.
Qed.

Lemma digit_not_letter (c : codepoint) : is_digit c = true -> is_letter c = false.
Proof.
  unfold is_digit, is_letter, is_upper, is_lower, charCode_0, charCode_9,
    charCodeA, charCodeZ, charCode_a, charCode_z.
  intros H. apply andb_true_iff in H as [H1 H2]. apply Z.leb_le in H1, H2.
  apply orb_false_iff; split; apply andb_false_iff; left; apply Z.leb_gt; lia.
Qed.

Lemma digits_stop_letters (ds : jsstring) :
  forallb is_digit ds = true -> stops is_letter ds = true.
Proof.
  destruct ds as [|d ds]; simpl; [reflexivity|]. intros H.
  apply andb_true_iff in H as [H _]. rewrite (digit_not_letter _ H). reflexivity.
Qed.

Lemma match_cell_letters_digits (ls ds : jsstring) :
  forallb is_letter ls = true -> (length ls <= 3)%nat ->
  forallb is_digit ds = true -> match_cell (ls ++ ds) = Some (ls, ds).
Proof.
  intros Hl Hlen Hd. unfold match_cell.
  rewrite (span_stops _ _ _ Hl (digits_stop_letters _ Hd)).
  apply Nat.leb_le in Hlen. rewrite Hlen, Hd. reflexivity.
Qed.

Lemma forallb_weaken (p q : codepoint -> bool) (s : jsstring) :
  (forall c, p c = true -> q c = true) ->
  forallb p s = true -> forallb q s = true.
Proof.
  intros Hpq. induction s as [|c s IH]; simpl; [reflexivity|]. intros H.
  apply andb_true_iff in H as [H1 H2]. rewrite (Hpq _ H1), (IH H2). reflexivity.
Qed.

Lemma upper_alnum (c : codepoint) : is_upper c = true -> is_alnum c = true.
Proof. unfold is_alnum, is_letter. intros ->. reflexivity. Qed.

Lemma upper_letter (c : codepoint) : is_upper c = true -> is_letter c = true.
Proof. unfold is_letter. intros ->. reflexivity. Qed.

Lemma digit_alnum (c : codepoint) : is_digit c = true -> is_alnum c = true.
Proof. unfold is_alnum. intros ->. apply orb_true_r. Qed.

(** The text of a cell in [toString]: the column letters, then the row. *)
Definition format_cell (col row : option Z) : jsstring :=
  A1Notation.add_row (A1Notation.add_col [] col) row.

Definition is_some {A} (o : option A) : bool :=
  match o with Some _ => true | None => false end.

(** A cell decoded from a non-empty name, without a row 0, is formatted as
    a cell name that decodes to the same cell. *)
Lemma parseCell_format_cell (s : jsstring) (col row : option Z) :
  parseCell s = Ret (Cell.make col row) -> truthy_str s = true ->
  row <> Some 0 ->
  test_alnum_plus (format_cell col row) = true
  /\ parseCell (format_cell col row) = Ret (Cell.make col row)
  /\ reCell_test (format_cell col row) = is_some row
  /\ truthy_onum col = is_some col
  /\ truthy_onum row = is_some row.
Proof.
  intros P T R0.
  pose proof (fun n => parseCell_col_range s P (n:=n)) as Hcol.
  pose proof (fun m => parseCell_row_nonneg s P (m:=m)) as Hrow.
  pose proof (parseCell_sets s P T) as Hset. simpl in *.
  assert (Hc : exists ls, A1Notation.add_col [] col = ls
                 /\ forallb is_upper ls = true /\ (length ls <= 3)%nat
                 /\ truthy_str ls = is_some col
                 /\ truthy_onum col = is_some col
                 /\ (if truthy_str ls then let* n := fromBase26 ls in Ret (Some n)
                     else Ret None) = Ret col).
  { destruct col as [n|]; simpl.
    - specialize (Hcol n eq_refl).
      replace (n =? 0) with false by (symmetry; apply Z.eqb_neq; lia). simpl.
      pose proof (toBase26_length Hcol) as L.
      exists (toBase26 n). repeat split; auto using toBase26_upper; try lia.
      + destruct (toBase26 n); [simpl in L; lia | reflexivity].
      + destruct (toBase26 n) eqn:E; [simpl in L; lia|]. simpl truthy_str.
        cbv iota. rewrite <- E, fromBase26_toBase26 by lia. reflexivity.
    - exists []. repeat split; auto. }
  destruct Hc as (ls & Els & Hup & Hlen & Tls & Tcol & Dcol).
  assert (Hr : exists ds, format_cell col row = ls ++ ds
                 /\ forallb is_digit ds = true
                 /\ truthy_str ds = is_some row
                 /\ truthy_onum row = is_some row
                 /\ (if truthy_str ds then Some (parseInt ds) else None) = row).
  { unfold format_cell. rewrite Els. destruct row as [m|]; simpl.
    - specialize (Hrow m eq_refl). assert (0 < m) by (destruct (Z.eq_dec m 0); [congruence | lia]).
      replace (m =? 0) with false by (symmetry; apply Z.eqb_neq; lia). simpl.
      destruct (Number_toString_pos H) as (D1 & D2 & D3).
      exists (Number_toString m). rewrite D2, D3. auto.
    - exists []. rewrite app_nil_r. auto. }
  destruct Hr as (ds & Ef & Hd & Tds & Trow & Drow).
  pose proof (forallb_weaken _ _ _ upper_letter Hup) as Hl.
  rewrite Ef. repeat split; auto.
  - unfold test_alnum_plus. rewrite forallb_app.
    rewrite (forallb_weaken _ _ _ upper_alnum Hup),
      (forallb_weaken _ _ _ digit_alnum Hd), andb_true_r.
    destruct ls, ds; try reflexivity. simpl in Tls, Tds.
    destruct col, row; try discriminate. destruct Hset; congruence.
  - unfold parseCell. rewrite (match_cell_letters_digits _ _ Hl Hlen Hd), Dcol.
    cbn [bind]. rewrite Drow. reflexivity.
  - unfold reCell_test. rewrite (match_cell_letters_digits _ _ Hl Hlen Hd).
    exact Tds.
Qed.

(** The cells of an interim result, decoded as [A1Notation.parse] does. *)
Definition decode_cell (cell : option jsstring)
  : outcome (option Z * option Z) :=
  match cell with
  | Some cell =>
      if truthy_str cell
      then let* c := parseCell cell in Ret (Cell.row c, Cell.col c)
      else Ret (None, None)
  | None => Ret (None, None)
  end.

Lemma parse_cells_eq (r : InterimResult.t) :
  A1Notation.parse_cells r
  = let* (t, l) := decode_cell (InterimResult.cell1 r) in
    let* (b, rr) := decode_cell (InterimResult.cell2 r) in
    Ret (A1Notation.constructor (InterimResult.sheetName r) l t rr b).
Proof. reflexivity. Qed.

Lemma decode_cell_col_range (cell : option jsstring) (row col : option Z) (n : Z) :
  decode_cell cell = Ret (row, col) -> col = Some n -> 1 <= n <= 18278.
Proof.
  unfold decode_cell. destruct cell as [cell|]; [ | intros [= <- <-]; discriminate].
  destruct (truthy_str cell); [ | intros [= <- <-]; discriminate].
  destruct (parseCell cell) as [c| |] eqn:P; simpl; try discriminate.
  intros [= <- <-]. apply (parseCell_col_range _ P).
Qed.

(** ** The interim results of the parser *)

(** What the parser returns: a sheet name that is not empty, and either no
    cell or two cells, both non-empty and alphanumeric. *)
Definition wf_interim (r : InterimResult.t) : Prop :=
  match InterimResult.sheetName r with
  | Some name => truthy_str name = true
  | None => True
  end
  /\ match InterimResult.cell1 r, InterimResult.cell2 r with
     | None, None => InterimResult.sheetName r <> None
     | Some cell1, Some cell2 =>
         test_alnum_plus cell1 = true /\ test_alnum_plus cell2 = true
     | _, _ => False
     end.

Lemma test_alnum_plus_truthy (s : jsstring) :
  test_alnum_plus s = true -> truthy_str s = true.
Proof. unfold test_alnum_plus. intros H. apply andb_true_iff in H. tauto. Qed.

Ltac parser_cases H :=
  repeat match type of H with
    | context [bind ?m _] =>
        let E := fresh "E" in
        destruct m as [[? ?]| |] eqn:E; cbn [bind] in H; try discriminate H
    | context [if ?c then _ else _] =>
        let E := fresh "C" in
        destruct c eqn:E; try discriminate H
    end.

Lemma Parser_parse_wf (p : Parser.t) (r : InterimResult.t) :
  Parser.parse p = Ret r -> wf_interim r.
Proof.
  unfold Parser.parse, Parser.parseSheetNameAndCell, Parser.parseCell.
  intros H. parser_cases H; injection H as <-; unfold wf_interim; simpl;
    repeat match goal with
      | E : Parser.parseName _ = Ret _ |- _ => apply parseName_Ret in E
      | E : Parser.parseQuotedName _ = Ret _ |- _ => apply parseQuotedName_Ret in E
      end;
    repeat split; auto using test_alnum_plus_truthy; discriminate.
Qed.

Lemma decode_cell_sets (cell : jsstring) (row col : option Z) :
  decode_cell (Some cell) = Ret (row, col) -> truthy_str cell = true ->
  col <> None \/ row <> None.
Proof.
  unfold decode_cell. intros H T. rewrite T in H.
  destruct (parseCell cell) as [c| |] eqn:P; cbn [bind] in H; try discriminate.
  injection H as <- <-. exact (parseCell_sets _ P T).
Qed.

Lemma constructor_set (sheetName : option jsstring) (l t r b : option Z) :
  r <> None \/ b <> None ->
  A1Notation.constructor sheetName l t r b = A1Notation.make sheetName l t r b.
Proof. destruct r, b; try reflexivity. intros [H|H]; congruence. Qed.

(** ** The two parsers *)

(** The interim results of the two parsers on the same input: equal, or a
    quoted sheet name followed by one cell, where [src/mod.ts] leaves
    [cell2] unset. *)
Definition interim_rel (new old : outcome InterimResult.t) : Prop :=
  new = old
  \/ exists name cell,
      new = Ret (InterimResult.make (Some name) (Some cell) (Some cell))
      /\ old = Ret (InterimResult.make (Some name) (Some cell) None).

Lemma Parser_parse_rel (p : Parser.t) :
  interim_rel (Parser.parse p) (ModTs.Parser_parse p).
Proof.
  unfold Parser.parse, ModTs.Parser_parse, Parser.parseSheetNameAndCell,
    Parser.parseCell, interim_rel.
  repeat match goal with
    | |- context [bind ?m _] => destruct m as [[? ?]| |]; cbn [bind]
    | |- context [if ?c then _ else _] => destruct c
    end; eauto.
Qed.

(** The ranges of the two [parse] on the same input: both throw the same
    error, both run for ever, or both return, with the same [sheetName],
    [left] and [top], and with the same [right] and [bottom] unless
    [src/mod.ts] leaves both unset where the documented implementation
    repeats [left] and [top]. *)
Definition range_rel (new old : outcome A1Notation.t) : Prop :=
  match new, old with
  | Ret r, Ret r' =>
      A1Notation.sheetName r' = A1Notation.sheetName r
      /\ A1Notation.left r' = A1Notation.left r
      /\ A1Notation.top r' = A1Notation.top r
      /\ ((A1Notation.right r' = A1Notation.right r
           /\ A1Notation.bottom r' = A1Notation.bottom r)
          \/ (A1Notation.right r' = None /\ A1Notation.bottom r' = None
              /\ A1Notation.right r = A1Notation.left r
              /\ A1Notation.bottom r = A1Notation.top r))
  | Throw m, Throw m' => m = m'
  | Diverges, Diverges => True
  | _, _ => False
  end.

Lemma ModTs_parse_eq (s : jsstring) :
  ModTs.parse s
  = let* r := ModTs.Parser_parse (Parser.constructor s) in
    let* (t, l) := decode_cell (InterimResult.cell1 r) in
    let* (b, rr) := decode_cell (InterimResult.cell2 r) in
    Ret (A1Notation.make
           (if truthy_ostr (InterimResult.sheetName r)
            then InterimResult.sheetName r else None) l t rr b).
Proof.
  unfold ModTs.parse. cbv zeta.
  destruct (ModTs.Parser_parse (Parser.constructor s)) as [r| |]; cbn [bind];
    try reflexivity.
  unfold decode_cell.
  destruct (InterimResult.cell1 r) as [c1|], (InterimResult.cell2 r) as [c2|];
    repeat match goal with
      | |- context [if truthy_str ?c then _ else _] => destruct (truthy_str c)
      | |- context [bind (parseCell ?c) _] =>
          destruct (parseCell c); cbn [bind]
      end;
    cbn [bind]; try reflexivity;
    destruct (truthy_ostr (InterimResult.sheetName r)); reflexivity.
Qed.

(** [A1Notation.parse] of [src/mod.ts] and of the documented implementation
    on the same input: both throw the same error, both run for ever, or both
    return ranges with the same [sheetName], [left] and [top], whose [right]
    and [bottom] are the same too unless [src/mod.ts] leaves both unset
    where the documented implementation repeats [left] and [top]. *)
Theorem parse_ModTs_related (s : jsstring) :
  range_rel (A1Notation.parse s) (ModTs.parse s).
Proof.
  rewrite ModTs_parse_eq. unfold A1Notation.parse. cbv zeta.
  pose proof (@Parser_parse_wf (Parser.constructor s)) as W.
  destruct (Parser_parse_rel (Parser.constructor s)) as [<- | (name & cell & E1 & E2)].
  - destruct (Parser.parse (Parser.constructor s)) as [r| |]; cbn [bind];
      try reflexivity.
    rewrite parse_cells_eq. specialize (W r eq_refl). destruct W as [W1 W2].
    destruct r as [sn c1 c2]; simpl in *.
    assert (Hsn : (if truthy_ostr sn then sn else None) = sn).
    { destruct sn as [n|]; simpl; [rewrite W1|]; reflexivity. }
    rewrite Hsn.
    destruct c1 as [c1|], c2 as [c2|]; try contradiction.
    + destruct W2 as [T1 T2]. apply test_alnum_plus_truthy in T1, T2.
      destruct (decode_cell (Some c1)) as [[t l]| |]; cbn [bind]; try reflexivity.
      destruct (decode_cell (Some c2)) as [[b rr]| |] eqn:D2; cbn [bind];
        try reflexivity.
      rewrite constructor_set by exact (decode_cell_sets _ D2 T2).
      simpl. tauto.
    + simpl. tauto.
  - rewrite E1, E2. cbn [bind]. rewrite parse_cells_eq. simpl InterimResult.cell1.
    simpl InterimResult.cell2. simpl InterimResult.sheetName.
    specialize (W _ E1). destruct W as [W1 [W2 _]]. simpl in W1.
    apply test_alnum_plus_truthy in W2.
    destruct (decode_cell (Some cell)) as [[t l]| |] eqn:D; cbn [bind];
      try reflexivity.
    rewrite constructor_set by exact (decode_cell_sets _ D W2).
    simpl. rewrite W1. simpl. tauto.
Qed.

(** ** The parser on the shapes of the grammar *)

Definition bang : codepoint := 33.
Definition colon : codepoint := 58.

Lemma alnum_not_quote (c : codepoint) : is_alnum c = true -> (c =? quote) = false.
Proof.
  unfold is_alnum, is_letter, is_upper, is_lower, is_digit, quote, charCode_0,
    charCode_9, charCodeA, charCodeZ, charCode_a, charCode_z.
  intros H. apply Z.eqb_neq. intros ->. discriminate H.
Qed.

Lemma alnum_plus_cons (s : jsstring) :
  test_alnum_plus s = true ->
  exists c s', s = c :: s' /\ is_alnum c = true /\ forallb is_alnum s = true
               /\ s <> [].
Proof.
  unfold test_alnum_plus. destruct s as [|c s']; [discriminate|]. simpl.
  intros H. exists c, s'. apply andb_true_iff in H as [H1 H2].
  rewrite H1, H2. repeat split. discriminate.
Qed.

(** One step of a proof that follows the parser along a known input. *)
Ltac at_peek :=
  match goal with
  | H : input ?p = [] |- context [Parser.peek ?p] =>
      rewrite (peek_nil _ H)
  | H : input ?p = _ :: _ |- context [Parser.peek ?p] =>
      rewrite (peek_cons _ H)
  end.

Ltac run_parseName a b q Hq :=
  match goal with
  | |- context [Parser.parseName ?p] =>
      let E := fresh "E" in
      destruct (@parseName_run p a b) as [q [E Hq]];
      [ try assumption | try assumption | try assumption | try reflexivity
      | rewrite E; cbn [bind]; clear E ]
  end.

(** The reference [cell1] or [cell1:cell2] that follows a sheet name. *)
Definition cell_ref (cell1 : jsstring) (cell2 : option jsstring) : jsstring :=
  match cell2 with
  | None => cell1
  | Some cell2 => cell1 ++ colon :: cell2
  end.

Definition second_cell (cell1 : jsstring) (cell2 : option jsstring) : jsstring :=
  match cell2 with None => cell1 | Some cell2 => cell2 end.

Definition alnum_plus_opt (s : option jsstring) : Prop :=
  match s with Some s => test_alnum_plus s = true | None => True end.

(** [name], an alphanumeric name alone. *)
Lemma Parser_parse_name (p : Parser.t) (name : jsstring) :
  input p = name -> test_alnum_plus name = true ->
  Parser.parse p
  = Ret (if reCell_test name
         then InterimResult.make None (Some name) (Some name)
         else InterimResult.make (Some name) None None).
Proof.
  intros Hp Hn. destruct (alnum_plus_cons _ Hn) as (c & s' & -> & Hc & Hall & Hne).
  unfold Parser.parse. at_peek. rewrite jseqb_char, (alnum_not_quote _ Hc),
    test_alnum_char, Hc.
  unfold Parser.parseCell. run_parseName (c :: s') (@nil codepoint) p1 Hp1.
  { rewrite app_nil_r; assumption. }
  at_peek. rewrite jseqb_refl. destruct (reCell_test (c :: s')); reflexivity.
Qed.

(** [cell1:cell2], without a sheet name. *)
Lemma Parser_parse_cells (p : Parser.t) (cell1 cell2 : jsstring) :
  input p = cell1 ++ colon :: cell2 ->
  test_alnum_plus cell1 = true -> test_alnum_plus cell2 = true ->
  Parser.parse p = Ret (InterimResult.make None (Some cell1) (Some cell2)).
Proof.
  intros Hp H1 H2.
  destruct (alnum_plus_cons _ H1) as (c & s' & -> & Hc & Hall1 & Hne1).
  destruct (alnum_plus_cons _ H2) as (d & t' & E2 & _ & Hall2 & Hne2).
  unfold Parser.parse. simpl in Hp. at_peek. simpl in Hp.
  rewrite jseqb_char, (alnum_not_quote _ Hc), test_alnum_char, Hc.
  unfold Parser.parseCell. run_parseName (c :: s') (colon :: cell2) p1 Hp1.
  at_peek. rewrite char_not_EOF.
  change (jseqb [colon] (js "!")) with false.
  change (jseqb [colon] (js ":")) with true. cbv iota.
  pose proof (input_next_cons _ Hp1) as Hn.
  run_parseName cell2 (@nil codepoint) p2 Hp2.
  { rewrite app_nil_r; assumption. }
  at_peek. rewrite jseqb_refl. reflexivity.
Qed.

(** [name!cell1] and [name!cell1:cell2], with a plain sheet name. *)
Lemma Parser_parse_sheet_cells (p : Parser.t) (name cell1 : jsstring)
    (cell2 : option jsstring) :
  input p = name ++ bang :: cell_ref cell1 cell2 ->
  test_alnum_plus name = true -> test_alnum_plus cell1 = true ->
  alnum_plus_opt cell2 ->
  Parser.parse p
  = Ret (InterimResult.make (Some name) (Some cell1)
           (Some (second_cell cell1 cell2))).
Proof.
  intros Hp Hn H1 H2.
  destruct (alnum_plus_cons _ Hn) as (c & s' & -> & Hc & Halln & Hnen).
  destruct (alnum_plus_cons _ H1) as (d & t' & E1 & _ & Hall1 & Hne1).
  unfold Parser.parse. simpl in Hp. at_peek.
  rewrite jseqb_char, (alnum_not_quote _ Hc), test_alnum_char, Hc.
  unfold Parser.parseCell.
  run_parseName (c :: s') (bang :: cell_ref cell1 cell2) p1 Hp1.
  at_peek. rewrite char_not_EOF.
  change (jseqb [bang] (js "!")) with true. cbv iota.
  pose proof (input_next_cons _ Hp1) as Hn1.
  destruct cell2 as [cell2|]; simpl in *.
  - destruct (alnum_plus_cons _ H2) as (e & u' & E2 & _ & Hall2 & Hne2).
    run_parseName cell1 (colon :: cell2) p2 Hp2.
    at_peek. rewrite char_not_EOF.
    change (jseqb [colon] (js ":")) with true. cbv iota.
    pose proof (input_next_cons _ Hp2) as Hn2.
    run_parseName cell2 (@nil codepoint) p3 Hp3.
    { rewrite app_nil_r; assumption. }
    at_peek. rewrite jseqb_refl. reflexivity.
  - run_parseName cell1 (@nil codepoint) p2 Hp2.
    { rewrite app_nil_r; assumption. }
    at_peek. rewrite jseqb_refl. reflexivity.
Qed.

Lemma parseQuotedName_run (p : Parser.t) (s name rest : jsstring) :
  input p = quote :: s -> unquote s = Some (name, rest) ->
  truthy_str name = true ->
  exists p', Parser.parseQuotedName p = Ret (name, p') /\ input p' = rest.
Proof.
  intros Hp U T. pose proof (parseQuotedName_spec p Hp) as H.
  rewrite U in H. destruct name; [discriminate | exact H].
Qed.

(** ['name'], a quoted sheet name alone. *)
Lemma Parser_parse_quoted_name (p : Parser.t) (s name : jsstring) :
  input p = quote :: s -> unquote s = Some (name, []) ->
  truthy_str name = true ->
  Parser.parse p = Ret (InterimResult.make (Some name) None None).
Proof.
  intros Hp U T. unfold Parser.parse. at_peek. rewrite jseqb_refl.
  unfold Parser.parseSheetNameAndCell.
  destruct (parseQuotedName_run p Hp U T) as [p1 [-> Hp1]]. cbn [bind].
  at_peek. rewrite jseqb_refl. reflexivity.
Qed.

(** ['name'!cell1] and ['name'!cell1:cell2]. *)
Lemma Parser_parse_quoted_cells (p : Parser.t) (s name cell1 : jsstring)
    (cell2 : option jsstring) :
  input p = quote :: s ->
  unquote s = Some (name, bang :: cell_ref cell1 cell2) ->
  truthy_str name = true -> test_alnum_plus cell1 = true ->
  alnum_plus_opt cell2 ->
  Parser.parse p
  = Ret (InterimResult.make (Some name) (Some cell1)
           (Some (second_cell cell1 cell2))).
Proof.
  intros Hp U T H1 H2.
  destruct (alnum_plus_cons _ H1) as (d & t' & E1 & _ & Hall1 & Hne1).
  unfold Parser.parse. at_peek. rewrite jseqb_refl.
  unfold Parser.parseSheetNameAndCell.
  destruct (parseQuotedName_run p Hp U T) as [p1 [-> Hp1]]. cbn [bind].
  at_peek. rewrite char_not_EOF.
  change (jseqb [bang] (js "!")) with true. cbv iota. cbn [negb].
  pose proof (input_next_cons _ Hp1) as Hn1.
  destruct cell2 as [cell2|]; simpl in *.
  - destruct (alnum_plus_cons _ H2) as (e & u' & E2 & _ & Hall2 & Hne2).
    run_parseName cell1 (colon :: cell2) p2 Hp2.
    at_peek. rewrite char_not_EOF.
    change (jseqb [colon] (js ":")) with true. cbv iota. cbn [negb].
    pose proof (input_next_cons _ Hp2) as Hn2.
    run_parseName cell2 (@nil codepoint) p3 Hp3.
    { rewrite app_nil_r; assumption. }
    at_peek. rewrite jseqb_refl. reflexivity.
  - run_parseName cell1 (@nil codepoint) p2 Hp2.
    { rewrite app_nil_r; assumption. }
    at_peek. rewrite jseqb_refl. reflexivity.
Qed.

(** ** Escaping and the quoted-name rule *)

Definition starts_with_quote (s : jsstring) : bool :=
  match s with c :: _ => c =? quote | [] => false end.

(** The loop of [parseQuotedName] undoes [double_quotes]. *)
Lemma unquote_double_quotes (name rest : jsstring) :
  starts_with_quote rest = false ->
  unquote (double_quotes name ++ quote :: rest) = Some (name, rest).
Proof.
  intros R. induction name as [|c name IH].
  - simpl. destruct rest as [|d rest]; [reflexivity|]. simpl in R. rewrite R.
    reflexivity.
  - unfold double_quotes in *. cbn [flat_map].
    destruct (c =? quote) eqn:Ec.
    + apply Z.eqb_eq in Ec; subst c. simpl. simpl in IH. rewrite IH. reflexivity.
    + cbn [app unquote]. rewrite Ec, IH. reflexivity.
Qed.

Lemma double_quotes_alnum (s : jsstring) :
  forallb is_alnum s = true -> double_quotes s = s.
Proof.
  unfold double_quotes.
  induction s as [|c s IH]; cbn [flat_map forallb]; [reflexivity|]. intros H.
  apply andb_true_iff in H as [Hc Hs].
  rewrite (alnum_not_quote _ Hc), (IH Hs). reflexivity.
Qed.

Lemma letter_alnum (c : codepoint) : is_letter c = true -> is_alnum c = true.
Proof. unfold is_alnum. intros ->. reflexivity. Qed.

Lemma reCell_test_alnum (s : jsstring) :
  reCell_test s = true -> forallb is_alnum s = true.
Proof.
  unfold reCell_test. destruct (match_cell s) as [[m1 m2]|] eqn:M; [ | discriminate].
  apply match_cell_Some in M as (-> & Hl & _ & Hd). intros _.
  rewrite forallb_app, (forallb_weaken _ _ _ letter_alnum Hl),
    (forallb_weaken _ _ _ digit_alnum Hd). reflexivity.
Qed.

(** An escaped sheet name is the name itself, alphanumeric and not a cell
    name, or a quoted text that [parseQuotedName] reads back as the name. *)
Lemma escapeSheetName_cases (name : jsstring) :
  (escapeSheetName name = name /\ test_alnum_plus name = true
   /\ reCell_test name = false)
  \/ (exists q, escapeSheetName name = quote :: q ++ [quote]
      /\ forall rest, starts_with_quote rest = false ->
                      unquote (q ++ quote :: rest) = Some (name, rest)).
Proof.
  unfold escapeSheetName. destruct (reCell_test name) eqn:R.
  - right. exists name. split; [reflexivity|]. intros rest Hr.
    rewrite <- (double_quotes_alnum _ (reCell_test_alnum _ R)) at 1.
    apply unquote_double_quotes; assumption.
  - destruct (test_alnum_plus name) eqn:A.
    + left. auto.
    + right. exists (double_quotes name). split; [reflexivity|].
      intros rest Hr. apply unquote_double_quotes; assumption.
Qed.

(** ** Parsing a formatted range *)

(** The text of a sheet-only range. *)
Lemma Parser_parse_escaped_name (name : jsstring) :
  truthy_str name = true ->
  Parser.parse (Parser.constructor (escapeSheetName name))
  = Ret (InterimResult.make (Some name) None None).
Proof.
  intros T. destruct (escapeSheetName_cases name) as [(-> & A & R) | (q & -> & U)].
  - rewrite (@Parser_parse_name (Parser.constructor name) name eq_refl A), R.
    reflexivity.
  - apply (@Parser_parse_quoted_name _ (q ++ [quote]) name); [reflexivity | | exact T].
    apply U. reflexivity.
Qed.

(** The text of a range with cells: the escaped sheet name and [!], if there
    is a sheet name, then the cell reference. *)
Definition range_text (sheetName : option jsstring) (cell : jsstring) : jsstring :=
  match sheetName with
  | Some name => escapeSheetName name ++ js "!" ++ cell
  | None => cell
  end.

Lemma Parser_parse_range_text (sheetName : option jsstring) (cell1 : jsstring)
    (cell2 : option jsstring) :
  match sheetName with Some name => truthy_str name = true | None => True end ->
  test_alnum_plus cell1 = true -> alnum_plus_opt cell2 ->
  (sheetName = None -> cell2 = None -> reCell_test cell1 = true) ->
  Parser.parse (Parser.constructor (range_text sheetName (cell_ref cell1 cell2)))
  = Ret (InterimResult.make sheetName (Some cell1)
           (Some (second_cell cell1 cell2))).
Proof.
  intros T H1 H2 R. destruct sheetName as [name|]; unfold range_text.
  - destruct (escapeSheetName_cases name) as [(-> & A & _) | (q & -> & U)].
    + apply Parser_parse_sheet_cells; auto.
    + apply (@Parser_parse_quoted_cells _
               (q ++ quote :: bang :: cell_ref cell1 cell2)); auto.
      simpl. rewrite <- app_assoc. reflexivity.
  - destruct cell2 as [cell2|]; simpl.
    + apply Parser_parse_cells; auto.
    + rewrite (@Parser_parse_name (Parser.constructor cell1) cell1 eq_refl H1),
        (R eq_refl eq_refl).
      reflexivity.
Qed.

Lemma decode_cell_Ret (cell : jsstring) (row col : option Z) :
  truthy_str cell = true ->
  decode_cell (Some cell) = Ret (row, col) <-> parseCell cell = Ret (Cell.make col row).
Proof.
  intros T. unfold decode_cell. rewrite T.
  destruct (parseCell cell) as [[c r]| |]; cbn [bind]; simpl;
    split; intros H; try discriminate; injection H as <- <-; reflexivity.
Qed.

(** [Number.MAX_SAFE_INTEGER]: up to it the integers of JavaScript are the
    integers of the model. *)
Definition MAX_SAFE_INTEGER : Z := 2 ^ 53 - 1.

(** A row that is absent, or neither 0 nor beyond the exact integers. *)
Definition row_ok (row : option Z) : Prop :=
  match row with
  | Some n => n <> 0 /\ n <= MAX_SAFE_INTEGER
  | None => True
  end.

(** Round trip: a range returned by [parse], without a row 0, is formatted
    as a text that [parse] accepts and reads as the same range. *)
Theorem parse_toString_roundtrip (s : jsstring) (r : A1Notation.t) :
  A1Notation.parse s = Ret r ->
  row_ok (A1Notation.top r) -> row_ok (A1Notation.bottom r) ->
  A1Notation.parse (A1Notation.toString r) = Ret r.
Proof.
  unfold A1Notation.parse at 1. cbv zeta.
  destruct (Parser.parse (Parser.constructor s)) as [ir| |] eqn:P; cbn [bind];
    try discriminate.
  destruct (Parser_parse_wf _ P) as [W1 W2]. rewrite parse_cells_eq.
  destruct ir as [sn [c1|] [c2|]]; simpl in W1, W2; try contradiction;
    cbn [InterimResult.cell1 InterimResult.cell2 InterimResult.sheetName].
  - (* two cells *)
    destruct W2 as [A1 A2]. pose proof (test_alnum_plus_truthy _ A1) as T1.
    pose proof (test_alnum_plus_truthy _ A2) as T2.
    destruct (decode_cell (Some c1)) as [[t l]| |] eqn:D1; cbn [bind];
      try discriminate.
    destruct (decode_cell (Some c2)) as [[b rr]| |] eqn:D2; cbn [bind];
      try discriminate.
    rewrite constructor_set by exact (decode_cell_sets _ D2 T2).
    intros [= <-]. cbn [A1Notation.top A1Notation.bottom]. intros Rt Rb.
    apply (decode_cell_Ret _ _ _ T1) in D1. apply (decode_cell_Ret _ _ _ T2) in D2.
    assert (Rt0 : t <> Some 0) by (intros ->; simpl in Rt; tauto).
    assert (Rb0 : b <> Some 0) by (intros ->; simpl in Rb; tauto).
    destruct (parseCell_format_cell _ D1 T1 Rt0) as (F1 & P1 & Re1 & Tl & Tt).
    destruct (parseCell_format_cell _ D2 T2 Rb0) as (F2 & P2 & Re2 & Tr & Tb).
    assert (E : exists cell2,
               A1Notation.toString (A1Notation.make sn l t rr b)
               = range_text sn (cell_ref (format_cell l t) cell2)
               /\ alnum_plus_opt cell2
               /\ (sn = None -> cell2 = None -> is_some t = true)
               /\ parseCell (second_cell (format_cell l t) cell2)
                  = Ret (Cell.make rr b)).
    { unfold A1Notation.toString.
      cbn [A1Notation.left A1Notation.top A1Notation.right A1Notation.bottom
           A1Notation.sheetName].
      fold (format_cell l t). fold (format_cell rr b).
      rewrite Tl, Tt, Tr, Tb, (test_alnum_plus_truthy _ F1),
        (test_alnum_plus_truthy _ F2).
      assert (Hsn : forall cell, truthy_str cell = true ->
                 match sn with
                 | Some name => if truthy_str name
                                then if truthy_str cell
                                     then escapeSheetName name ++ js "!" ++ cell
                                     else escapeSheetName name
                                else cell
                 | None => cell
                 end = range_text sn cell).
      { intros cell Tc. unfold range_text. destruct sn as [name|]; [ | reflexivity].
        rewrite W1, Tc. reflexivity. }
      destruct (is_some l && is_some rr && is_some t && is_some b) eqn:All.
      - destruct (A1Notation.onum_eqb l rr && A1Notation.onum_eqb t b) eqn:Eq.
        + exists None. rewrite Hsn by exact (test_alnum_plus_truthy _ F1).
          destruct l as [l|], rr as [rr|], t as [t|], b as [b|]; try discriminate.
          simpl in Eq. apply andb_true_iff in Eq as [E1 E2].
          apply Z.eqb_eq in E1, E2. subst rr b. simpl. auto.
        + exists (Some (format_cell rr b)). rewrite Hsn.
          * simpl. repeat split; auto; discriminate.
          * destruct (format_cell l t); [discriminate | reflexivity].
      - cbn [andb]. exists (Some (format_cell rr b)). rewrite Hsn.
        + simpl. repeat split; auto; discriminate.
        + destruct (format_cell l t); [discriminate | reflexivity]. }
    destruct E as (cell2 & -> & Hc2 & Hre & P2').
    unfold A1Notation.parse. cbv zeta.
    rewrite Parser_parse_range_text; auto.
    + cbn [bind]. rewrite parse_cells_eq.
      cbn [InterimResult.cell1 InterimResult.cell2 InterimResult.sheetName].
      apply (decode_cell_Ret _ _ _ (test_alnum_plus_truthy _ F1)) in P1.
      rewrite P1. cbn [bind].
      assert (T2' : truthy_str (second_cell (format_cell l t) cell2) = true).
      { destruct cell2 as [c|]; simpl in *; apply test_alnum_plus_truthy; auto. }
      apply (decode_cell_Ret _ _ _ T2') in P2'. rewrite P2'. cbn [bind].
      rewrite constructor_set; [reflexivity|].
      apply (decode_cell_sets _ P2' T2').
    + intros Hs Hc. rewrite Re1. auto.
  - (* a sheet name alone *)
    intros [= <-] _ _. destruct sn as [name|]; [ | congruence].
    unfold A1Notation.constructor, A1Notation.toString. simpl. rewrite W1.
    unfold A1Notation.parse. cbv zeta.
    rewrite (Parser_parse_escaped_name _ W1). reflexivity.
Qed.

(** ** Letter case *)

(** The upper-case form of a character: [ch.toUpperCase()] on ASCII. *)
Definition toUpperCase (c : codepoint) : codepoint :=
  if is_lower c then c - 32 else c.

Ltac by_cases_leb :=
  unfold toUpperCase, is_alnum, is_letter, is_upper, is_lower, is_digit,
    charCodeA, charCodeZ, charCode_a, charCode_z, charCode_0, charCode_9 in *;
  repeat match goal with
    | |- context [?a <=? ?b] =>
        lazymatch a with
        | context [if _ then _ else _] => fail
        | _ =>
            lazymatch b with
            | context [if _ then _ else _] => fail
            | _ => destruct (Z.leb_spec a b); cbn [andb orb negb]; cbv iota
            end
        end
    end;
  cbn [andb orb negb] in *; try reflexivity; try discriminate; try lia.









(** ** The claims about single inputs *)

(** C2 (the code differs): the constructor has no [throw]; for an empty
    sheet name, for a bound equal to 0, for a [right] without a [left] and
    for a [bottom] without a [top] it produces a range holding exactly the
    arguments it was given. *)
Theorem C2_constructor_accepts_invalid_arguments :
  A1Notation.constructor (Some []) None None None None
  = A1Notation.make (Some []) None None None None
  /\ A1Notation.constructor None (Some 0) None None None
     = A1Notation.make None (Some 0) None (Some 0) None
  /\ A1Notation.constructor None (Some 1) (Some 0) None None
     = A1Notation.make None (Some 1) (Some 0) (Some 1) (Some 0)
  /\ A1Notation.constructor None (Some 1) (Some 1) (Some 0) None
     = A1Notation.make None (Some 1) (Some 1) (Some 0) None
  /\ A1Notation.constructor None (Some 1) (Some 1) (Some 1) (Some 0)
     = A1Notation.make None (Some 1) (Some 1) (Some 1) (Some 0)
  /\ A1Notation.constructor None None None (Some 1) None
     = A1Notation.make None None None (Some 1) None
  /\ A1Notation.constructor None None None None (Some 1)
     = A1Notation.make None None None None (Some 1).
Proof. repeat split. Qed.

(** C3 (the code differs): on the input ['abc], whose quoted name is never
    closed, the loop of [parseQuotedName] leaves for no amount of fuel, and
    [parse] neither returns nor throws [invalid sheet name]. *)
Theorem C3_unterminated_quote_never_returns :
  (forall fuel name,
      Parser.parseQuotedName_loop fuel name
        (Parser.next (Parser.constructor (js "'abc"))) = Diverges)
  /\ A1Notation.parse (js "'abc") = Diverges.
Proof.
  split.
  - intros fuel name. apply parseQuotedName_loop_unterminated. reflexivity.
  - apply (@parse_unterminated (js "abc")). reflexivity.
Qed.

(** The documented constructor does what C5 states: when [right] and
    [bottom] are both omitted, the constructed range
    has [right] equal to [left] and [bottom] equal to [top]; when [right] is
    given, or when [bottom] is given, both fields are exactly the arguments,
    so an omitted counterpart stays absent. *)
Theorem C5_constructor_defaults (sheetName : option jsstring)
    (left top right bottom : option Z) (x : Z) :
  let omitted := A1Notation.constructor sheetName left top None None in
  let with_right := A1Notation.constructor sheetName left top (Some x) bottom in
  let with_bottom := A1Notation.constructor sheetName left top right (Some x) in
  (A1Notation.right omitted = left /\ A1Notation.bottom omitted = top)
  /\ (A1Notation.right with_right = Some x
      /\ A1Notation.bottom with_right = bottom)
  /\ (A1Notation.right with_bottom = right
      /\ A1Notation.bottom with_bottom = Some x).
Proof. destruct right, bottom; repeat split. Qed.

(** With the documented constructor, the range constructed from the sheet
    name [Sheet1], [left = 3] and [top = 2] is formatted as [Sheet1!C2]. *)
Theorem C6_format_Sheet1_C2 :
  A1Notation.toString
    (A1Notation.constructor (Some (js "Sheet1")) (Some 3) (Some 2) None None)
  = js "Sheet1!C2".
Proof. vm_compute. reflexivity. Qed.

(** C7: [parse] throws on each of the six invalid inputs. *)
Theorem C7_invalid_inputs_fail :
  A1Notation.parse (js "") = Throw (js "invalid cell name")
  /\ A1Notation.parse (js "Sheet1!") = Throw (js "invalid cell name")
  /\ A1Notation.parse (js "A1:B2:C3") = Throw (js "expected EOF, but got :")
  /\ A1Notation.parse (js "!A1:B2") = Throw (js "unexpected character: !")
  /\ A1Notation.parse (js "''!A1:B2") = Throw (js "invalid sheet name")
  /\ A1Notation.parse (js "Sheet1?")
     = Throw (expected "!" " or " ++ [dquote] ++ js ":" ++ [dquote]
              ++ js ", but got ?").
Proof. repeat split; vm_compute; reflexivity. Qed.

(** C9 (the code differs): on the input ['Sheet1'!A1] the parser of
    [src/mod.ts] leaves [right] and [bottom] unset, while the documented
    implementation sets them to the single cell. *)
Theorem C9_quoted_single_cell_differs :
  A1Notation.parse (js "'Sheet1'!A1")
  = Ret (A1Notation.make (Some (js "Sheet1")) (Some 1) (Some 1) (Some 1) (Some 1))
  /\ ModTs.parse (js "'Sheet1'!A1")
     = Ret (A1Notation.make (Some (js "Sheet1")) (Some 1) (Some 1) None None).
Proof. split; vm_compute; reflexivity. Qed.

(** ** Column bounds *)

(** C10: when [parse] succeeds, a column bound it sets ([left] or [right])
    lies between 1 and 18278. *)
Theorem C10_parsed_columns_in_range (s : jsstring) (r : A1Notation.t) (n : Z) :
  A1Notation.parse s = Ret r ->
  A1Notation.left r = Some n \/ A1Notation.right r = Some n ->
  1 <= n <= 18278.
Proof.
  unfold A1Notation.parse.
  destruct (Parser.parse (Parser.constructor s)) as [ir| |]; cbn [bind];
    try discriminate.
  rewrite parse_cells_eq.
  destruct (decode_cell (InterimResult.cell1 ir)) as [[t l]| |] eqn:D1;
    cbn [bind]; try discriminate.
  destruct (decode_cell (InterimResult.cell2 ir)) as [[b rr]| |] eqn:D2;
    cbn [bind]; try discriminate.
  intros [= <-] H.
  pose proof (fun k => @decode_cell_col_range _ _ _ k D1) as H1.
  pose proof (fun k => @decode_cell_col_range _ _ _ k D2) as H2.
  unfold A1Notation.constructor in H.
  destruct rr as [x|], b as [y|]; simpl in H; destruct H as [H|H]; auto.
Qed.

Lemma C10_parsed_columns_in_range_witness :
  A1Notation.parse (js "ZZZ1")
  = Ret (A1Notation.make None (Some 18278) (Some 1) (Some 18278) (Some 1))
  /\ 1 <= 18278 <= 18278.
Proof.
  split; [vm_compute; reflexivity|].
  apply (@C10_parsed_columns_in_range (js "ZZZ1")
           (A1Notation.make None (Some 18278) (Some 1) (Some 18278) (Some 1))
           18278).
  - vm_compute; reflexivity.
  - left; reflexivity.
Defined.

(** ** Letter case and sheet names *)



(** ** Rows equal to 0 *)

(** C1 (the code differs): [parse] accepts the row 0, which [toString] takes
    for an absent row.  The range of ["0"] is formatted as the empty text,
    which [parse] rejects; the range of ["A0"] is formatted as ["A:A"],
    whose range has no rows. *)
Theorem C1_roundtrip_fails_on_row_zero :
  (A1Notation.parse (js "0")
   = Ret (A1Notation.make None None (Some 0) None (Some 0))
   /\ A1Notation.toString (A1Notation.make None None (Some 0) None (Some 0))
      = js ""
   /\ A1Notation.parse (js "") = Throw (js "invalid cell name"))
  /\ (A1Notation.parse (js "A0")
      = Ret (A1Notation.make None (Some 1) (Some 0) (Some 1) (Some 0))
      /\ A1Notation.toString
           (A1Notation.make None (Some 1) (Some 0) (Some 1) (Some 0))
         = js "A:A"
      /\ A1Notation.parse (js "A:A")
         = Ret (A1Notation.make None (Some 1) None (Some 1) None)).
Proof. repeat split; vm_compute; reflexivity. Qed.

(** ** The constructor of [src/mod.ts] *)

(** C5 (the code differs): the constructor of [src/mod.ts] takes its
    arguments as [top], [bottom], [left], [right].  The call
    [new A1Notation("Sheet1", 1, 2)] yields [top = 1], [bottom = 2],
    [left = 1] and no [right]; with [right] and [bottom] both omitted,
    [bottom] is never set to [top]; and with [bottom] given and [right]
    omitted, [right] is still set to the argument [left]. *)
Theorem C5_ModTs_constructor_defaults_differ :
  ModTs.constructor (Some (js "Sheet1")) (Some 1) (Some 2) None None
  = A1Notation.make (Some (js "Sheet1")) (Some 1) (Some 1) None (Some 2)
  /\ (forall sheetName top left,
        A1Notation.bottom (ModTs.constructor sheetName top None left None)
        = None)
  /\ (forall sheetName top bottom left,
        A1Notation.right
          (ModTs.constructor sheetName top (Some bottom) left None)
        = left).
Proof. repeat split. Qed.

(** C6 (the code differs): with the constructor of [src/mod.ts], the call
    [new A1Notation("Sheet1", 3, 2)] sets [top = 3], [bottom = 2] and
    [left = 3], and is formatted as [Sheet1!C3:2]; with the documented
    constructor it is formatted as [Sheet1!C2]. *)
Theorem C6_ModTs_format_Sheet1_differs :
  ModTs.constructor (Some (js "Sheet1")) (Some 3) (Some 2) None None
  = A1Notation.make (Some (js "Sheet1")) (Some 3) (Some 3) None (Some 2)
  /\ A1Notation.toString
       (ModTs.constructor (Some (js "Sheet1")) (Some 3) (Some 2) None None)
     = js "Sheet1!C3:2"
  /\ A1Notation.toString
       (A1Notation.constructor (Some (js "Sheet1")) (Some 3) (Some 2) None None)
     = js "Sheet1!C2".
Proof. repeat split; vm_compute; reflexivity. Qed.

(** ** The parse tests of the repository *)

Example parse_Sheet1_A1_B2 :
  A1Notation.parse (js "Sheet1!A1:B2")
  = Ret (A1Notation.make (Some (js "Sheet1")) (Some 1) (Some 1) (Some 2) (Some 2)).
Proof. vm_compute. reflexivity. Qed.

Example parse_Sheet1_A5_A :
  A1Notation.parse (js "Sheet1!A5:A")
  = Ret (A1Notation.make (Some (js "Sheet1")) (Some 1) (Some 5) (Some 1) None).
Proof. vm_compute. reflexivity. Qed.

Example parse_quoted_A1 :
  A1Notation.parse (js "'A1'")
  = Ret (A1Notation.make (Some (js "A1")) None None None None).
Proof. vm_compute. reflexivity. Qed.

Example parse_AAAA1 :
  A1Notation.parse (js "AAAA1")
  = Ret (A1Notation.make (Some (js "AAAA1")) None None None None).
Proof. vm_compute. reflexivity. Qed.

Example parse_AAAA1_ZZZ1 :
  A1Notation.parse (js "AAAA1:ZZZ1") = Throw (js "invalid cell name: AAAA1").
Proof. vm_compute. reflexivity. Qed.

Example toString_A5_A :
  A1Notation.toString
    (A1Notation.constructor (Some (js "Sheet1")) (Some 1) (Some 5) (Some 1) None)
  = js "Sheet1!A5:A".
Proof. vm_compute. reflexivity. Qed.

(** * Further properties of the code *)

(** ** Round trips *)

Lemma parse_toString_roundtrip_witness :
  A1Notation.parse (js "'My Custom Sheet'!A5:B")
  = Ret (A1Notation.make (Some (js "My Custom Sheet")) (Some 1) (Some 5)
           (Some 2) None)
  /\ A1Notation.parse
       (A1Notation.toString
          (A1Notation.make (Some (js "My Custom Sheet")) (Some 1) (Some 5)
             (Some 2) None))
     = Ret (A1Notation.make (Some (js "My Custom Sheet")) (Some 1) (Some 5)
              (Some 2) None).
Proof.
  split; [vm_compute; reflexivity|].
  apply (@parse_toString_roundtrip (js "'My Custom Sheet'!A5:B")).
  - vm_compute; reflexivity.
  - simpl. unfold MAX_SAFE_INTEGER. split; [discriminate | lia].
  - exact I.
Defined.

(** Escaping and parsing: whatever characters a non-empty sheet name holds
    (spaces, quotes, [!], the text of a cell), [parse] reads the escaped name
    as the range of that sheet alone, with exactly that name. *)
Theorem parse_escapeSheetName (name : jsstring) :
  truthy_str name = true ->
  A1Notation.parse (escapeSheetName name)
  = Ret (A1Notation.make (Some name) None None None None).
Proof.
  intros T. unfold A1Notation.parse. cbv zeta.
  rewrite (Parser_parse_escaped_name _ T). reflexivity.
Qed.

Lemma parse_escapeSheetName_witness :
  truthy_str (js "Bob's A1!") = true
  /\ A1Notation.parse (escapeSheetName (js "Bob's A1!"))
     = Ret (A1Notation.make (Some (js "Bob's A1!")) None None None None).
Proof.
  split; [reflexivity|].
  apply (@parse_escapeSheetName (js "Bob's A1!")). reflexivity.
Defined.

(** ** The quoted-name rule *)

(** A quoted name that holds no quote at all and is never closed: whatever
    the number of iterations, the loop of [parseQuotedName] has not reached
    its [break] ([Diverges] is the answer of the loop function when its
    fuel is used up), so the test that throws [invalid sheet name] after the
    loop is never reached. *)
Theorem parseQuotedName_loop_unclosed (s : jsstring) :
  forallb (fun c => negb (c =? quote)) s = true ->
  forall fuel name,
    Parser.parseQuotedName_loop fuel name
      (Parser.next (Parser.constructor (quote :: s))) = Diverges.
Proof.
  intros H fuel name. apply parseQuotedName_loop_unterminated.
  change (input (Parser.next (Parser.constructor (quote :: s)))) with s.
  induction s as [|c s IH]; [reflexivity|]. cbn [forallb] in H.
  apply andb_true_iff in H as [Hc Hs]. apply negb_true_iff in Hc.
  cbn [unquote]. rewrite Hc, (IH Hs). reflexivity.
Qed.

Lemma parseQuotedName_loop_unclosed_witness :
  forallb (fun c => negb (c =? quote)) (js "My Sheet!A1") = true
  /\ forall fuel name,
      Parser.parseQuotedName_loop fuel name
        (Parser.next (Parser.constructor (quote :: js "My Sheet!A1")))
      = Diverges.
Proof.
  split; [reflexivity|].
  apply (@parseQuotedName_loop_unclosed (js "My Sheet!A1")). reflexivity.
Defined.

(** Two quotes at the start, not followed by a third: the quoted name is
    empty and [parse] throws [invalid sheet name], whatever follows. *)
Theorem parse_empty_quotes_throws (rest : jsstring) :
  starts_with_quote rest = false ->
  A1Notation.parse (quote :: quote :: rest) = Throw (js "invalid sheet name").
Proof.
  intros R. rewrite parse_quoted. unfold Parser.parseSheetNameAndCell.
  pose proof (@parseQuotedName_spec
                (Parser.constructor (quote :: quote :: rest)) (quote :: rest)
                eq_refl) as P.
  assert (U : unquote (quote :: rest) = Some ([], rest)).
  { cbn [unquote]. rewrite Z.eqb_refl. destruct rest as [|d rest]; [reflexivity|].
    simpl in R. rewrite R. reflexivity. }
  rewrite U in P. rewrite P. reflexivity.
Qed.

Lemma parse_empty_quotes_throws_witness :
  starts_with_quote (js "!A1:B2") = false
  /\ A1Notation.parse (quote :: quote :: js "!A1:B2")
     = Throw (js "invalid sheet name").
Proof.
  split; [reflexivity|].
  apply (@parse_empty_quotes_throws (js "!A1:B2")). reflexivity.
Defined.

(** ** The two implementations *)

Lemma ModTs_Parser_parse_unquoted (p : Parser.t) :
  jseqb (Parser.peek p) [quote] = false ->
  ModTs.Parser_parse p = Parser.parse p.
Proof.
  intros H. unfold ModTs.Parser_parse, Parser.parse, Parser.parseCell.
  cbv zeta. rewrite H. reflexivity.
Qed.

Lemma peek_not_quote (s : jsstring) :
  starts_with_quote s = false ->
  jseqb (Parser.peek (Parser.constructor s)) [quote] = false.
Proof.
  destruct s as [|c s]; [reflexivity|]. simpl starts_with_quote. intros H.
  rewrite (@peek_cons (Parser.constructor (c :: s)) c s eq_refl), jseqb_char.
  exact H.
Qed.

(** On an input that does not start with a quote, [A1Notation.parse] of
    [src/mod.ts] and of the documented implementation have the same outcome:
    the same range or the same error. *)
Theorem ModTs_parse_unquoted (s : jsstring) :
  starts_with_quote s = false -> ModTs.parse s = A1Notation.parse s.
Proof.
  intros H. rewrite ModTs_parse_eq. unfold A1Notation.parse. cbv zeta.
  rewrite (ModTs_Parser_parse_unquoted _ (peek_not_quote _ H)).
  pose proof (@Parser_parse_wf (Parser.constructor s)) as W.
  destruct (Parser.parse (Parser.constructor s)) as [r| |]; cbn [bind];
    try reflexivity.
  rewrite parse_cells_eq. destruct (W r eq_refl) as [W1 W2].
  destruct r as [sn c1 c2]; simpl in *.
  assert (Hsn : (if truthy_ostr sn then sn else None) = sn).
  { destruct sn as [n|]; simpl; [rewrite W1|]; reflexivity. }
  rewrite Hsn.
  destruct c1 as [c1|], c2 as [c2|]; try contradiction; [ | reflexivity].
  destruct W2 as [_ T2]. apply test_alnum_plus_truthy in T2.
  destruct (decode_cell (Some c1)) as [[t l]| |]; cbn [bind]; try reflexivity.
  destruct (decode_cell (Some c2)) as [[b rr]| |] eqn:D2; cbn [bind];
    try reflexivity.
  rewrite constructor_set by exact (decode_cell_sets _ D2 T2). reflexivity.
Qed.

Lemma ModTs_parse_unquoted_witness :
  starts_with_quote (js "Sheet1!A5:B") = false
  /\ ModTs.parse (js "Sheet1!A5:B") = A1Notation.parse (js "Sheet1!A5:B").
Proof.
  split; [reflexivity|].
  apply (@ModTs_parse_unquoted (js "Sheet1!A5:B")). reflexivity.
Defined.

(** ** The column codec, in both directions *)

Lemma fromBase26_from_upper_form (n : Z) (c : codepoint) (s : jsstring) :
  is_letter c = true ->
  65 <= toUpperCase c <= 90
  /\ fromBase26_from n (c :: s)
     = fromBase26_from (n * 26 + (toUpperCase c - 64)) s.
Proof.
  intros H. cbn [fromBase26_from]. by_cases_leb; split; try lia; f_equal; lia.
Qed.

Lemma toBase26_fromBase26_from (s acc : jsstring) (a : Z) :
  forallb is_letter s = true -> 0 <= a ->
  exists v, fromBase26_from a s = Ret v /\ a <= v
            /\ (s <> [] -> 1 <= v)
            /\ toBase26_loop (halving_fuel v) v acc
               = toBase26_loop (halving_fuel a) a (map toUpperCase s ++ acc).
Proof.
  revert acc a; induction s as [|c s IH]; intros acc a H Ha.
  - exists a. simpl. repeat split; try lia. congruence.
  - cbn [forallb] in H. apply andb_true_iff in H as [Hc Hs].
    destruct (@fromBase26_from_upper_form a c s Hc) as [Hu ->].
    destruct (IH acc (a * 26 + (toUpperCase c - 64)) Hs ltac:(lia))
      as (v & -> & Hv & _ & E).
    exists v. repeat split; try lia. rewrite E, toBase26_loop_unfold.
    replace (a * 26 + (toUpperCase c - 64) >? 0) with true
      by (symmetry; apply Z.gtb_lt; lia).
    replace (a * 26 + (toUpperCase c - 64) - 1) with ((toUpperCase c - 65) + a * 26)
      by lia.
    rewrite Z.div_add, Z.mod_add, Z.div_small, Z.mod_small by lia.
    unfold charCodeA. cbn [map app].
    replace (65 + (toUpperCase c - 65)) with (toUpperCase c) by lia.
    reflexivity.
Qed.

Lemma fromBase26_from_bound (s : jsstring) (a v : Z) :
  forallb is_letter s = true -> 0 <= a -> fromBase26_from a s = Ret v ->
  25 * v + 26 <= (25 * a + 26) * 26 ^ Z.of_nat (length s).
Proof.
  revert a; induction s as [|c s IH]; intros a H Ha E.
  - simpl in E. injection E as <-. simpl. lia.
  - cbn [forallb] in H. apply andb_true_iff in H as [Hc Hs].
    destruct (@fromBase26_from_upper_form a c s Hc) as [Hu E'].
    rewrite E' in E.
    assert (Ha' : 0 <= a * 26 + (toUpperCase c - 64)) by lia.
    specialize (IH _ Hs Ha' E).
    cbn [length]. rewrite Nat2Z.inj_succ, Z.pow_succ_r by lia.
    assert (0 < 26 ^ Z.of_nat (length s)) by (apply Z.pow_pos_nonneg; lia).
    nia.
Qed.

(** Decoding then encoding: for a text of at most eleven letters,
    [fromBase26] returns a number [n] that [toBase26] encodes as the
    upper-case form of the text, so two such labels that differ by more than
    case never decode alike.  Up to eleven letters every value the code
    computes on the way, [n + 96] at most, is an exact integer of
    JavaScript. *)
Theorem toBase26_fromBase26 (s : jsstring) :
  forallb is_letter s = true -> (length s <= 11)%nat ->
  exists n, fromBase26 s = Ret n /\ n + 96 <= 2 ^ 53
            /\ toBase26 n = map toUpperCase s.
Proof.
  intros H L. unfold fromBase26, toBase26.
  destruct (@toBase26_fromBase26_from s [] 0 H ltac:(lia)) as (v & E & _ & _ & T).
  exists v. split; [exact E|]. split.
  - pose proof (@fromBase26_from_bound s 0 v H ltac:(lia) E) as B.
    assert (P : 26 ^ Z.of_nat (length s) <= 26 ^ 11)
      by (apply Z.pow_le_mono_r; lia).
    change (26 ^ 11) with 3670344486987776 in P.
    change (2 ^ 53) with 9007199254740992. lia.
  - rewrite T, app_nil_r. reflexivity.
Qed.

Lemma toBase26_fromBase26_witness :
  forallb is_letter (js "abCDe") = true /\ (length (js "abCDe") <= 11)%nat
  /\ exists n, fromBase26 (js "abCDe") = Ret n /\ n + 96 <= 2 ^ 53
               /\ toBase26 n = map toUpperCase (js "abCDe").
Proof.
  split; [reflexivity|]. split; [simpl; lia|].
  apply (@toBase26_fromBase26 (js "abCDe")); [reflexivity | simpl; lia].
Defined.

Lemma toBase26_nonpos (n : Z) : n <= 0 -> toBase26 n = [].
Proof.
  intros Hn. unfold toBase26. rewrite toBase26_loop_unfold.
  replace (n >? 0) with false; [reflexivity|].
  symmetry. rewrite Z.gtb_ltb. apply Z.ltb_ge. lia.
Qed.

(** Encoding then decoding, beyond three letters: for every number from 0
    to 2^53 - 64, [toBase26(n)] is made of upper-case letters and
    [fromBase26] reads it back as [n].  The bound keeps every value that
    [fromBase26] computes on the way, [n + 64] at most, an exact integer of
    JavaScript. *)
Theorem fromBase26_toBase26_exact_range (n : Z) :
  0 <= n <= 2 ^ 53 - 64 ->
  fromBase26 (toBase26 n) = Ret n /\ forallb is_upper (toBase26 n) = true.
Proof.
  intros [Hn _]. split; [apply fromBase26_toBase26; exact Hn | apply toBase26_upper].
Qed.

Lemma fromBase26_toBase26_exact_range_witness :
  0 <= 1000000 <= 2 ^ 53 - 64
  /\ (fromBase26 (toBase26 1000000) = Ret 1000000
      /\ forallb is_upper (toBase26 1000000) = true).
Proof.
  assert (H : 0 <= 1000000 <= 2 ^ 53 - 64)
    by (change (2 ^ 53) with 9007199254740992; lia).
  split; [exact H | apply (@fromBase26_toBase26_exact_range 1000000 H)].
Defined.

Lemma toBase26_loop_length (f : nat) (n : Z) (s : jsstring) :
  (length s <= length (toBase26_loop f n s))%nat.
Proof.
  revert n s; induction f as [|f IH]; intros n s; cbn [toBase26_loop]; [lia|].
  destruct (n >? 0); [ | lia].
  etransitivity; [ | apply IH]. simpl. lia.
Qed.

(** The width of a column label: [toBase26(n)] has at most three letters
    exactly when [n] is at most 18278, the column [ZZZ]. *)
Theorem toBase26_three_letters (n : Z) :
  (length (toBase26 n) <= 3)%nat <-> n <= 18278.
Proof.
  split.
  - intros L. destruct (Z_le_gt_dec n 18278) as [H|H]; [exact H | exfalso].
    revert L. unfold toBase26. rewrite toBase26_loop_unfold.
    replace (n >? 0) with true by (symmetry; apply Z.gtb_lt; lia).
    assert (H1 : 703 <= (n - 1) / 26) by (apply Z.div_le_lower_bound; lia).
    set (n1 := (n - 1) / 26) in *. rewrite toBase26_loop_unfold.
    replace (n1 >? 0) with true by (symmetry; apply Z.gtb_lt; lia).
    assert (H2 : 27 <= (n1 - 1) / 26) by (apply Z.div_le_lower_bound; lia).
    set (n2 := (n1 - 1) / 26) in *. rewrite toBase26_loop_unfold.
    replace (n2 >? 0) with true by (symmetry; apply Z.gtb_lt; lia).
    assert (H3 : 1 <= (n2 - 1) / 26) by (apply Z.div_le_lower_bound; lia).
    set (n3 := (n2 - 1) / 26) in *. rewrite toBase26_loop_unfold.
    replace (n3 >? 0) with true by (symmetry; apply Z.gtb_lt; lia).
    match goal with
    | |- (length (toBase26_loop ?f ?m ?acc) <= 3)%nat -> False =>
        pose proof (toBase26_loop_length f m acc) as L4
    end.
    simpl length in L4 at 1. lia.
  - intros H. destruct (Z_le_gt_dec n 0) as [H0|H0].
    + rewrite (toBase26_nonpos H0). simpl. lia.
    + apply toBase26_length. lia.
Qed.

Lemma fromBase26_from_invalid (ls rest : jsstring) (c : codepoint) (a : Z) :
  forallb is_letter ls = true -> is_letter c = false ->
  fromBase26_from a (ls ++ c :: rest) = Throw (js "invalid character: " ++ [c]).
Proof.
  revert a; induction ls as [|l ls IH]; intros a Hl Hc.
  - cbn [app fromBase26_from]. unfold is_letter, is_upper, is_lower in Hc.
    apply orb_false_iff in Hc as [-> ->]. reflexivity.
  - cbn [forallb] in Hl. apply andb_true_iff in Hl as [H1 H2].
    rewrite <- app_comm_cons.
    destruct (@fromBase26_from_letter a l (ls ++ c :: rest) H1) as [d [_ ->]].
    apply IH; assumption.
Qed.

(** The error of [fromBase26]: on a text whose first character that is not
    a letter is [c], it throws [invalid character: c], whatever follows. *)
Theorem fromBase26_invalid_character (ls rest : jsstring) (c : codepoint) :
  forallb is_letter ls = true -> is_letter c = false ->
  fromBase26 (ls ++ c :: rest) = Throw (js "invalid character: " ++ [c]).
Proof. intros Hl Hc. apply fromBase26_from_invalid; assumption. Qed.

Lemma fromBase26_invalid_character_witness :
  forallb is_letter (js "AB") = true /\ is_letter charCode_0 = false
  /\ fromBase26 (js "AB" ++ charCode_0 :: js "C")
     = Throw (js "invalid character: " ++ [charCode_0]).
Proof.
  split; [reflexivity|]. split; [reflexivity|].
  apply (@fromBase26_invalid_character (js "AB") (js "C") charCode_0);
    reflexivity.
Defined.

(** ** The cell-name decoder *)

(** What [parseCell] does with a text: it returns exactly when the text is
    at most three letters followed by digits, with a column when there is a
    letter and with a row when there is a digit; the row is the number of
    the digits unless that number is beyond [MAX_SAFE_INTEGER], where
    [parseInt] is no longer exact.  Otherwise it throws [invalid cell name: s].  The
    error of [fromBase26] is never reached from [parseCell], and the empty
    text yields a cell with neither column nor row. *)
Theorem parseCell_outcome (s : jsstring) :
  match parseCell s with
  | Ret c =>
      exists ls ds,
        s = ls ++ ds /\ forallb is_letter ls = true /\ (length ls <= 3)%nat
        /\ forallb is_digit ds = true
        /\ is_some (Cell.col c) = truthy_str ls
        /\ is_some (Cell.row c) = truthy_str ds
        /\ (Cell.row c = (if truthy_str ds then Some (parseInt ds) else None)
            \/ MAX_SAFE_INTEGER < parseInt ds)
  | Throw msg =>
      msg = js "invalid cell name: " ++ s
      /\ forall ls ds,
          s = ls ++ ds -> forallb is_letter ls = true ->
          forallb is_digit ds = true -> (3 < length ls)%nat
  | Diverges => False
  end.
Proof.
  unfold parseCell. destruct (match_cell s) as [[m1 m2]|] eqn:M.
  - destruct (match_cell_Some _ M) as (E & Hl & Hlen & Hd).
    destruct m1 as [|a m1]; cbn [truthy_str bind].
    + exists [], m2. simpl in *.
      repeat split; auto; try lia; destruct (truthy_str m2); auto.
    + destruct (@fromBase26_range (a :: m1) Hl ltac:(discriminate) Hlen)
        as [k [-> _]]. cbn [bind].
      exists (a :: m1), m2. simpl in *.
      repeat split; auto; try lia; destruct (truthy_str m2); auto.
  - split; [reflexivity|]. intros ls ds -> Hl Hd.
    destruct (le_lt_dec (length ls) 3) as [L|L]; [ | exact L].
    rewrite (match_cell_letters_digits _ _ Hl L Hd) in M. discriminate.
Qed.

(** ** Escaped sheet names *)

Lemma quoted_not_cell (s : jsstring) : reCell_test (quote :: s) = false.
Proof. reflexivity. Qed.

(** An escaped sheet name never reads as a cell name: it is the name itself
    when that is alphanumeric and no cell name, and a text between quotes
    otherwise. *)
Theorem escapeSheetName_not_cell (name : jsstring) :
  reCell_test (escapeSheetName name) = false
  /\ (escapeSheetName name = name
      \/ exists q, escapeSheetName name = quote :: q ++ [quote]).
Proof.
  unfold escapeSheetName. destruct (reCell_test name) eqn:R.
  - split; [apply quoted_not_cell | right; exists name; reflexivity].
  - destruct (test_alnum_plus name).
    + split; [exact R | left; reflexivity].
    + split; [apply quoted_not_cell|].
      right; exists (double_quotes name); reflexivity.
Qed.

(** Escaping loses nothing: two non-empty sheet names with the same escaped
    text are the same name. *)
Theorem escapeSheetName_injective (a b : jsstring) :
  truthy_str a = true -> truthy_str b = true ->
  escapeSheetName a = escapeSheetName b -> a = b.
Proof.
  intros Ta Tb E. pose proof (Parser_parse_escaped_name _ Ta) as Pa.
  rewrite E, (Parser_parse_escaped_name _ Tb) in Pa. congruence.
Qed.

Lemma escapeSheetName_injective_witness :
  truthy_str (js "A1") = true /\ truthy_str (js "A1") = true
  /\ escapeSheetName (js "A1") = escapeSheetName (js "A1")
  /\ js "A1" = js "A1".
Proof.
  split; [reflexivity|]. split; [reflexivity|]. split; [reflexivity|].
  apply (@escapeSheetName_injective (js "A1") (js "A1")); reflexivity.
Defined.

(** ** The ranges that [parse] returns *)

Lemma decode_cell_row_nonneg (cell : option jsstring) (row col : option Z)
    (m : Z) :
  decode_cell cell = Ret (row, col) -> row = Some m -> 0 <= m.
Proof.
  unfold decode_cell. destruct cell as [cell|]; [ | intros [= <- <-]; discriminate].
  destruct (truthy_str cell); [ | intros [= <- <-]; discriminate].
  destruct (parseCell cell) as [c| |] eqn:P; simpl; try discriminate.
  intros [= <- <-]. apply (parseCell_row_nonneg _ P).
Qed.

(** The shape of a parsed range: its sheet name, when set, is not empty; its
    rows, when set, are not negative; and either it has no bound at all and
    a sheet name, or it has a first cell ([left] or [top]) and a second cell
    ([right] or [bottom]).  In particular [parse] never returns the range
    with nothing set. *)
Theorem parse_range_shape (s : jsstring) (r : A1Notation.t) :
  A1Notation.parse s = Ret r ->
  (forall name, A1Notation.sheetName r = Some name -> truthy_str name = true)
  /\ (forall m, A1Notation.top r = Some m -> 0 <= m)
  /\ (forall m, A1Notation.bottom r = Some m -> 0 <= m)
  /\ ((A1Notation.left r = None /\ A1Notation.top r = None
       /\ A1Notation.right r = None /\ A1Notation.bottom r = None
       /\ A1Notation.sheetName r <> None)
      \/ ((A1Notation.left r <> None \/ A1Notation.top r <> None)
          /\ (A1Notation.right r <> None \/ A1Notation.bottom r <> None))).
Proof.
  unfold A1Notation.parse. cbv zeta.
  destruct (Parser.parse (Parser.constructor s)) as [ir| |] eqn:P; cbn [bind];
    try discriminate.
  destruct (Parser_parse_wf _ P) as [W1 W2]. rewrite parse_cells_eq.
  destruct ir as [sn [c1|] [c2|]]; simpl in W1, W2; try contradiction;
    cbn [InterimResult.cell1 InterimResult.cell2 InterimResult.sheetName].
  - destruct W2 as [A1 A2]. apply test_alnum_plus_truthy in A1, A2.
    destruct (decode_cell (Some c1)) as [[t l]| |] eqn:D1; cbn [bind];
      try discriminate.
    destruct (decode_cell (Some c2)) as [[b rr]| |] eqn:D2; cbn [bind];
      try discriminate.
    rewrite constructor_set by exact (decode_cell_sets _ D2 A2).
    intros [= <-]. simpl. repeat split.
    + intros name ->. exact W1.
    + intros m. apply (decode_cell_row_nonneg _ D1).
    + intros m. apply (decode_cell_row_nonneg _ D2).
    + right. split; [exact (decode_cell_sets _ D1 A1)
                     | exact (decode_cell_sets _ D2 A2)].
  - intros [= <-]. simpl. repeat split; try discriminate.
    + intros name ->. exact W1.
    + left. auto.
Qed.

Lemma parse_range_shape_witness :
  A1Notation.parse (js "Sheet1!A5:A")
  = Ret (A1Notation.make (Some (js "Sheet1")) (Some 1) (Some 5) (Some 1) None)
  /\ 0 <= 5.
Proof.
  split; [vm_compute; reflexivity|].
  destruct (@parse_range_shape (js "Sheet1!A5:A")
              (A1Notation.make (Some (js "Sheet1")) (Some 1) (Some 5) (Some 1)
                 None)) as (_ & Ht & _).
  - vm_compute; reflexivity.
  - apply (Ht 5). reflexivity.
Defined.

(** ** Formatting a range and parsing it back *)

Definition col_in_range (col : option Z) : Prop :=
  match col with Some n => 1 <= n <= 18278 | None => True end.

Definition row_in_range (row : option Z) : Prop :=
  match row with Some m => 1 <= m <= MAX_SAFE_INTEGER | None => True end.

(** The ranges that the formatter renders faithfully: a sheet name that is
    not empty, if any; columns from [A] to [ZZZ]; rows from 1 on; and either
    a sheet name without any bound, or a first cell ([left] or [top]) and a
    second cell ([right] or [bottom]). *)
Definition well_formed (r : A1Notation.t) : Prop :=
  match A1Notation.sheetName r with
  | Some name => truthy_str name = true
  | None => True
  end
  /\ col_in_range (A1Notation.left r) /\ col_in_range (A1Notation.right r)
  /\ row_in_range (A1Notation.top r) /\ row_in_range (A1Notation.bottom r)
  /\ ((A1Notation.left r = None /\ A1Notation.top r = None
       /\ A1Notation.right r = None /\ A1Notation.bottom r = None
       /\ A1Notation.sheetName r <> None)
      \/ ((A1Notation.left r <> None \/ A1Notation.top r <> None)
          /\ (A1Notation.right r <> None \/ A1Notation.bottom r <> None))).

Lemma format_cell_decodes (col row : option Z) :
  col_in_range col -> row_in_range row -> col <> None \/ row <> None ->
  test_alnum_plus (format_cell col row) = true
  /\ parseCell (format_cell col row) = Ret (Cell.make col row)
  /\ reCell_test (format_cell col row) = is_some row
  /\ truthy_onum col = is_some col
  /\ truthy_onum row = is_some row.
Proof.
  intros Hcol Hrow Hset.
  assert (Hc : exists ls, A1Notation.add_col [] col = ls
                 /\ forallb is_upper ls = true /\ (length ls <= 3)%nat
                 /\ truthy_str ls = is_some col
                 /\ truthy_onum col = is_some col
                 /\ (if truthy_str ls then let* n := fromBase26 ls in Ret (Some n)
                     else Ret None) = Ret col).
  { destruct col as [n|]; simpl in *.
    - replace (n =? 0) with false by (symmetry; apply Z.eqb_neq; lia). simpl.
      pose proof (toBase26_length Hcol) as L.
      exists (toBase26 n). repeat split; auto using toBase26_upper; try lia.
      + destruct (toBase26 n); [simpl in L; lia | reflexivity].
      + destruct (toBase26 n) eqn:E; [simpl in L; lia|]. simpl truthy_str.
        cbv iota. rewrite <- E, fromBase26_toBase26 by lia. reflexivity.
    - exists []. repeat split; auto. }
  destruct Hc as (ls & Els & Hup & Hlen & Tls & Tcol & Dcol).
  assert (Hr : exists ds, format_cell col row = ls ++ ds
                 /\ forallb is_digit ds = true
                 /\ truthy_str ds = is_some row
                 /\ truthy_onum row = is_some row
                 /\ (if truthy_str ds then Some (parseInt ds) else None) = row).
  { unfold format_cell. rewrite Els. destruct row as [m|]; simpl in *.
    - assert (H : 0 < m) by lia.
      replace (m =? 0) with false by (symmetry; apply Z.eqb_neq; lia). simpl.
      destruct (Number_toString_pos H) as (D1 & D2 & D3).
      exists (Number_toString m). rewrite D2, D3. auto.
    - exists []. rewrite app_nil_r. auto. }
  destruct Hr as (ds & Ef & Hd & Tds & Trow & Drow).
  pose proof (forallb_weaken _ _ _ upper_letter Hup) as Hl.
  rewrite Ef. repeat split; auto.
  - unfold test_alnum_plus. rewrite forallb_app.
    rewrite (forallb_weaken _ _ _ upper_alnum Hup),
      (forallb_weaken _ _ _ digit_alnum Hd), andb_true_r.
    destruct ls, ds; try reflexivity. simpl in Tls, Tds.
    destruct col, row; try discriminate. destruct Hset; congruence.
  - unfold parseCell. rewrite (match_cell_letters_digits _ _ Hl Hlen Hd), Dcol.
    cbn [bind]. rewrite Drow. reflexivity.
  - unfold reCell_test. rewrite (match_cell_letters_digits _ _ Hl Hlen Hd).
    exact Tds.
Qed.

(** Formatting then parsing: a well-formed range, however it was
    constructed, is formatted as a text that [parse] reads back as the same
    range, field by field. *)
Theorem toString_parse_roundtrip (r : A1Notation.t) :
  well_formed r -> A1Notation.parse (A1Notation.toString r) = Ret r.
Proof.
  destruct r as [sn l t rr b]. unfold well_formed.
  cbn [A1Notation.left A1Notation.top A1Notation.right A1Notation.bottom
       A1Notation.sheetName].
  intros (W1 & Cl & Cr & Rt & Rb & [(-> & -> & -> & -> & Hsn) | [S1 S2]]).
  - destruct sn as [name|]; [ | congruence].
    unfold A1Notation.toString. simpl. rewrite W1.
    unfold A1Notation.parse. cbv zeta.
    rewrite (Parser_parse_escaped_name _ W1). reflexivity.
  - destruct (format_cell_decodes Cl Rt S1) as (F1 & P1 & Re1 & Tl & Tt).
    destruct (format_cell_decodes Cr Rb S2) as (F2 & P2 & Re2 & Tr & Tb).
    assert (E : exists cell2,
               A1Notation.toString (A1Notation.make sn l t rr b)
               = range_text sn (cell_ref (format_cell l t) cell2)
               /\ alnum_plus_opt cell2
               /\ (sn = None -> cell2 = None -> is_some t = true)
               /\ parseCell (second_cell (format_cell l t) cell2)
                  = Ret (Cell.make rr b)).
    { unfold A1Notation.toString.
      cbn [A1Notation.left A1Notation.top A1Notation.right A1Notation.bottom
           A1Notation.sheetName].
      fold (format_cell l t). fold (format_cell rr b).
      rewrite Tl, Tt, Tr, Tb, (test_alnum_plus_truthy _ F1),
        (test_alnum_plus_truthy _ F2).
      assert (Hsn : forall cell, truthy_str cell = true ->
                 match sn with
                 | Some name => if truthy_str name
                                then if truthy_str cell
                                     then escapeSheetName name ++ js "!" ++ cell
                                     else escapeSheetName name
                                else cell
                 | None => cell
                 end = range_text sn cell).
      { intros cell Tc. unfold range_text. destruct sn as [name|]; [ | reflexivity].
        rewrite W1, Tc. reflexivity. }
      destruct (is_some l && is_some rr && is_some t && is_some b) eqn:All.
      - destruct (A1Notation.onum_eqb l rr && A1Notation.onum_eqb t b) eqn:Eq.
        + exists None. rewrite Hsn by exact (test_alnum_plus_truthy _ F1).
          destruct l as [l|], rr as [rr|], t as [t|], b as [b|]; try discriminate.
          simpl in Eq. apply andb_true_iff in Eq as [E1 E2].
          apply Z.eqb_eq in E1, E2. subst rr b. simpl. auto.
        + exists (Some (format_cell rr b)). rewrite Hsn.
          * simpl. repeat split; auto; discriminate.
          * destruct (format_cell l t); [discriminate | reflexivity].
      - cbn [andb]. exists (Some (format_cell rr b)). rewrite Hsn.
        + simpl. repeat split; auto; discriminate.
        + destruct (format_cell l t); [discriminate | reflexivity]. }
    destruct E as (cell2 & -> & Hc2 & Hre & P2').
    unfold A1Notation.parse. cbv zeta.
    rewrite Parser_parse_range_text; auto.
    + cbn [bind]. rewrite parse_cells_eq.
      cbn [InterimResult.cell1 InterimResult.cell2 InterimResult.sheetName].
      apply (decode_cell_Ret _ _ _ (test_alnum_plus_truthy _ F1)) in P1.
      rewrite P1. cbn [bind].
      assert (T2' : truthy_str (second_cell (format_cell l t) cell2) = true).
      { destruct cell2 as [c|]; simpl in *; apply test_alnum_plus_truthy; auto. }
      apply (decode_cell_Ret _ _ _ T2') in P2'. rewrite P2'. cbn [bind].
      rewrite constructor_set; [reflexivity|].
      apply (decode_cell_sets _ P2' T2').
    + intros Hs Hc. rewrite Re1. auto.
Qed.

Lemma toString_parse_roundtrip_witness :
  well_formed
    (A1Notation.constructor (Some (js "Bob's")) (Some 28) (Some 3) None None)
  /\ A1Notation.parse
       (A1Notation.toString
          (A1Notation.constructor (Some (js "Bob's")) (Some 28) (Some 3) None
             None))
     = Ret (A1Notation.constructor (Some (js "Bob's")) (Some 28) (Some 3) None
              None).
Proof.
  assert (W : well_formed
                (A1Notation.constructor (Some (js "Bob's")) (Some 28) (Some 3)
                   None None)).
  { unfold well_formed; simpl; unfold MAX_SAFE_INTEGER.
    split; [reflexivity|]. repeat (split; [lia|]).
    right. split; left; discriminate. }
  split; [exact W | apply (toString_parse_roundtrip W)].
Defined.

Lemma parse_col_range (s : jsstring) (r : A1Notation.t) (n : Z) :
  A1Notation.parse s = Ret r -> A1Notation.left r = Some n -> 1 <= n <= 18278.
Proof.
  unfold A1Notation.parse.
  destruct (Parser.parse (Parser.constructor s)) as [ir| |]; cbn [bind];
    try discriminate.
  rewrite parse_cells_eq.
  destruct (decode_cell (InterimResult.cell1 ir)) as [[t l]| |] eqn:D1;
    cbn [bind]; try discriminate.
  destruct (decode_cell (InterimResult.cell2 ir)) as [[b rr]| |] eqn:D2;
    cbn [bind]; try discriminate.
  intros [= <-] H.
  pose proof (fun k => @decode_cell_col_range _ _ _ k D1) as H1.
  unfold A1Notation.constructor in H.
  destruct rr as [x|], b as [y|]; simpl in H; auto.
Qed.

(** The limit of the formatter: a range whose [left] column lies beyond
    [ZZZ] (18278) is never read back by [parse] from its own text, whatever
    its other fields. *)
Theorem toString_beyond_ZZZ_not_read_back (r : A1Notation.t) (n : Z) :
  A1Notation.left r = Some n -> 18278 < n ->
  A1Notation.parse (A1Notation.toString r) <> Ret r.
Proof.
  intros Hl Hn P. pose proof (parse_col_range _ P Hl). lia.
Qed.

Lemma toString_beyond_ZZZ_not_read_back_witness :
  A1Notation.left (A1Notation.constructor None (Some 18279) (Some 1) None None)
  = Some 18279
  /\ 18278 < 18279
  /\ A1Notation.parse
       (A1Notation.toString
          (A1Notation.constructor None (Some 18279) (Some 1) None None))
     <> Ret (A1Notation.constructor None (Some 18279) (Some 1) None None).
Proof.
  split; [reflexivity|]. split; [lia|].
  apply (@toString_beyond_ZZZ_not_read_back
           (A1Notation.constructor None (Some 18279) (Some 1) None None) 18279);
    [reflexivity | lia].
Defined.

(** ** The language of the parser *)

Lemma span_snd_stops (p : codepoint -> bool) (s : jsstring) :
  stops p (snd (span p s)) = true.
Proof.
  induction s as [|c s IH]; [reflexivity|]. cbn [span].
  destruct (p c) eqn:E.
  - destruct (span p s); exact IH.
  - simpl. rewrite E. reflexivity.
Qed.

Lemma parseName_inv (p p' : Parser.t) (name : jsstring) :
  Parser.parseName p = Ret (name, p') ->
  input p = name ++ input p' /\ test_alnum_plus name = true
  /\ stops is_alnum (input p') = true.
Proof.
  intros H. pose proof (parseName_Ret _ H) as A.
  pose proof (parseName_spec p) as S. pose proof (span_app is_alnum (input p)) as E.
  pose proof (span_snd_stops is_alnum (input p)) as T.
  destruct (fst (span is_alnum (input p))) as [|c a] eqn:F.
  - rewrite S in H. discriminate.
  - destruct S as [q [S1 S2]]. rewrite S1 in H. injection H as <- <-.
    rewrite S2. auto.
Qed.

Lemma peek_EOF_inv (p : Parser.t) :
  jseqb (Parser.peek p) EOF = true -> input p = [].
Proof.
  rewrite peek_input. destruct (input p) as [|c rest]; [reflexivity|].
  rewrite char_not_EOF. discriminate.
Qed.

Lemma peek_char_inv (p : Parser.t) (x : codepoint) :
  jseqb (Parser.peek p) [x] = true -> exists rest, input p = x :: rest.
Proof.
  rewrite peek_input. destruct (input p) as [|c rest].
  - unfold EOF. simpl. rewrite andb_false_r. discriminate.
  - rewrite jseqb_char. intros H. apply Z.eqb_eq in H. subst c. eauto.
Qed.

(** The shapes of an accepted input that does not start with a quote, with
    the interim result of each. *)
Inductive unquoted_shape : jsstring -> InterimResult.t -> Prop :=
| shape_cell (name : jsstring) :
    test_alnum_plus name = true -> reCell_test name = true ->
    unquoted_shape name (InterimResult.make None (Some name) (Some name))
| shape_sheet (name : jsstring) :
    test_alnum_plus name = true -> reCell_test name = false ->
    unquoted_shape name (InterimResult.make (Some name) None None)
| shape_cells (cell1 cell2 : jsstring) :
    test_alnum_plus cell1 = true -> test_alnum_plus cell2 = true ->
    unquoted_shape (cell1 ++ colon :: cell2)
      (InterimResult.make None (Some cell1) (Some cell2))
| shape_sheet_cells (name cell1 : jsstring) (cell2 : option jsstring) :
    test_alnum_plus name = true -> test_alnum_plus cell1 = true ->
    alnum_plus_opt cell2 ->
    unquoted_shape (name ++ bang :: cell_ref cell1 cell2)
      (InterimResult.make (Some name) (Some cell1)
         (Some (second_cell cell1 cell2))).

Lemma negb_true_false (b : bool) : negb b = false -> b = true.
Proof. destruct b; [reflexivity | discriminate]. Qed.

Lemma Parser_parse_unquoted_shape (s : jsstring) (r : InterimResult.t) :
  starts_with_quote s = false ->
  Parser.parse (Parser.constructor s) = Ret r -> unquoted_shape s r.
Proof.
  intros Q.
  unfold Parser.parse. cbv zeta. rewrite (peek_not_quote _ Q).
  destruct (test_alnum _); [ | discriminate].
  unfold Parser.parseCell. intros H.
  destruct (Parser.parseName (Parser.constructor s)) as [[name p1]| |] eqn:N1;
    cbn [bind] in H; try discriminate.
  destruct (parseName_inv _ N1) as (E1 & A1 & _).
  rewrite input_constructor in E1. cbv zeta in H.
  destruct (jseqb (Parser.peek p1) EOF) eqn:C1.
  { apply peek_EOF_inv in C1. rewrite C1, app_nil_r in E1. subst s.
    destruct (reCell_test name) eqn:R; injection H as <-;
      [apply shape_cell | apply shape_sheet]; assumption. }
  destruct (jseqb (Parser.peek p1) (js "!")) eqn:C2.
  { apply (peek_char_inv p1 bang) in C2 as [rest Hp1].
    pose proof (input_next_cons _ Hp1) as Hn1.
    destruct (Parser.parseName (Parser.next p1)) as [[cell1 p2]| |] eqn:N2;
      cbn [bind] in H; try discriminate.
    destruct (parseName_inv _ N2) as (E2 & A2 & _). rewrite Hn1 in E2.
    destruct (jseqb (Parser.peek p2) EOF) eqn:C3.
    { apply peek_EOF_inv in C3. rewrite C3, app_nil_r in E2.
      injection H as <-. subst s. rewrite Hp1, E2.
      apply (@shape_sheet_cells name cell1 None); auto. exact I. }
    destruct (jseqb (Parser.peek p2) (js ":")) eqn:C4; [ | discriminate].
    apply (peek_char_inv p2 colon) in C4 as [rest2 Hp2].
    pose proof (input_next_cons _ Hp2) as Hn2.
    destruct (Parser.parseName (Parser.next p2)) as [[cell2 p3]| |] eqn:N3;
      cbn [bind] in H; try discriminate.
    destruct (parseName_inv _ N3) as (E3 & A3 & _). rewrite Hn2 in E3.
    destruct (negb (jseqb (Parser.peek p3) EOF)) eqn:C5; [discriminate|].
    apply negb_true_false, peek_EOF_inv in C5. rewrite C5, app_nil_r in E3.
    injection H as <-. subst s. rewrite Hp1, E2, Hp2, E3.
    apply (@shape_sheet_cells name cell1 (Some cell2)); auto. }
  destruct (jseqb (Parser.peek p1) (js ":")) eqn:C6; [ | discriminate].
  apply (peek_char_inv p1 colon) in C6 as [rest Hp1].
  pose proof (input_next_cons _ Hp1) as Hn1.
  destruct (Parser.parseName (Parser.next p1)) as [[cell2 p2]| |] eqn:N2;
    cbn [bind] in H; try discriminate.
  destruct (parseName_inv _ N2) as (E2 & A2 & _). rewrite Hn1 in E2.
  destruct (negb (jseqb (Parser.peek p2) EOF)) eqn:C5; [discriminate|].
  apply negb_true_false, peek_EOF_inv in C5. rewrite C5, app_nil_r in E2.
  injection H as <-. subst s. rewrite Hp1, E2.
  apply shape_cells; assumption.
Qed.

(** The parser on an input that does not start with a quote: it returns
    exactly on the texts [name], [cell1:cell2], [name!cell1] and
    [name!cell1:cell2] with non-empty alphanumeric parts, where a lone name
    is a cell when it reads as one and a sheet name otherwise. *)
Theorem Parser_parse_unquoted_iff (s : jsstring) (r : InterimResult.t) :
  starts_with_quote s = false ->
  (Parser.parse (Parser.constructor s) = Ret r <-> unquoted_shape s r).
Proof.
  intros Q. split.
  - apply Parser_parse_unquoted_shape; exact Q.
  - intros H. destruct H.
    + rewrite (@Parser_parse_name (Parser.constructor name) name eq_refl H), H0.
      reflexivity.
    + rewrite (@Parser_parse_name (Parser.constructor name) name eq_refl H), H0.
      reflexivity.
    + apply Parser_parse_cells; auto.
    + apply Parser_parse_sheet_cells; auto.
Qed.

Lemma Parser_parse_unquoted_iff_witness :
  starts_with_quote (js "Sheet1!A1:B2") = false
  /\ (Parser.parse (Parser.constructor (js "Sheet1!A1:B2"))
      = Ret (InterimResult.make (Some (js "Sheet1")) (Some (js "A1"))
               (Some (js "B2")))
      <-> unquoted_shape (js "Sheet1!A1:B2")
            (InterimResult.make (Some (js "Sheet1")) (Some (js "A1"))
               (Some (js "B2")))).
Proof.
  split; [reflexivity|].
  apply (@Parser_parse_unquoted_iff (js "Sheet1!A1:B2")). reflexivity.
Defined.

Definition allowed_unquoted (c : codepoint) : bool :=
  is_alnum c || (c =? bang) || (c =? colon).

Lemma alnum_plus_allowed (s : jsstring) :
  test_alnum_plus s = true -> forallb allowed_unquoted s = true.
Proof.
  intros H. destruct (alnum_plus_cons _ H) as (_ & _ & _ & _ & A & _).
  apply (forallb_weaken is_alnum); [ | exact A].
  intros c Hc. unfold allowed_unquoted. rewrite Hc. reflexivity.
Qed.

(** An input that [parse] accepts and that does not start with a quote holds
    nothing but ASCII letters, digits, [!] and [:]: no space, no quote and
    no other sign is accepted outside a quoted sheet name. *)
Theorem parse_unquoted_characters (s : jsstring) (r : A1Notation.t) :
  A1Notation.parse s = Ret r -> starts_with_quote s = false ->
  forallb allowed_unquoted s = true.
Proof.
  unfold A1Notation.parse. cbv zeta. intros H Q.
  destruct (Parser.parse (Parser.constructor s)) as [ir| |] eqn:P;
    cbn [bind] in H; try discriminate.
  destruct (Parser_parse_unquoted_shape _ Q P) as
    [name A _ | name A _ | c1 c2 A1 A2 | name c1 [c2|] A A1 A2];
    repeat (rewrite forallb_app; cbn [forallb cell_ref]);
    repeat match goal with
      | H : test_alnum_plus _ = true |- _ => apply alnum_plus_allowed in H
      | H : alnum_plus_opt (Some _) |- _ => apply alnum_plus_allowed in H
      end;
    repeat match goal with H : forallb allowed_unquoted _ = true |- _ =>
             rewrite H; clear H end;
    reflexivity.
Qed.

Lemma parse_unquoted_characters_witness :
  A1Notation.parse (js "Sheet1!A1:B2")
  = Ret (A1Notation.make (Some (js "Sheet1")) (Some 1) (Some 1) (Some 2) (Some 2))
  /\ starts_with_quote (js "Sheet1!A1:B2") = false
  /\ forallb allowed_unquoted (js "Sheet1!A1:B2") = true.
Proof.
  split; [vm_compute; reflexivity|]. split; [reflexivity|].
  apply (@parse_unquoted_characters (js "Sheet1!A1:B2")
           (A1Notation.make (Some (js "Sheet1")) (Some 1) (Some 1) (Some 2)
              (Some 2))); [vm_compute; reflexivity | reflexivity].
Defined.

Lemma parseQuotedName_inv (p p' : Parser.t) (s name : jsstring) :
  input p = quote :: s -> Parser.parseQuotedName p = Ret (name, p') ->
  unquote s = Some (name, input p') /\ truthy_str name = true.
Proof.
  intros Hp H. pose proof (parseQuotedName_Ret _ H) as T.
  pose proof (parseQuotedName_spec p Hp) as S.
  destruct (unquote s) as [[a b]|].
  - destruct a as [|c a].
    + rewrite S in H. discriminate.
    + destruct S as [q [S1 S2]]. rewrite S1 in H. injection H as <- <-.
      rewrite S2. auto.
  - rewrite S in H. discriminate.
Qed.

(** The shapes of an accepted input [quote :: s], with the interim result
    of each: a closed quoted name that is not empty, alone or followed by
    [!cell1] or [!cell1:cell2]. *)
Definition quoted_shape (s : jsstring) (r : InterimResult.t) : Prop :=
  exists name rest,
    unquote s = Some (name, rest) /\ truthy_str name = true
    /\ ((rest = [] /\ r = InterimResult.make (Some name) None None)
        \/ exists cell1 cell2,
            rest = bang :: cell_ref cell1 cell2
            /\ test_alnum_plus cell1 = true /\ alnum_plus_opt cell2
            /\ r = InterimResult.make (Some name) (Some cell1)
                     (Some (second_cell cell1 cell2))).

Lemma Parser_parse_quoted_shape (s : jsstring) (r : InterimResult.t) :
  Parser.parse (Parser.constructor (quote :: s)) = Ret r -> quoted_shape s r.
Proof.
  unfold Parser.parse. cbv zeta.
  rewrite (@peek_cons (Parser.constructor (quote :: s)) quote s eq_refl),
    jseqb_refl.
  unfold Parser.parseSheetNameAndCell. intros H.
  destruct (Parser.parseQuotedName (Parser.constructor (quote :: s)))
    as [[name p1]| |] eqn:N0; cbn [bind] in H; try discriminate.
  destruct (@parseQuotedName_inv (Parser.constructor (quote :: s)) p1 s name
              eq_refl N0) as [U T].
  exists name, (input p1). split; [exact U|]. split; [exact T|].
  destruct (jseqb (Parser.peek p1) EOF) eqn:C1.
  { apply peek_EOF_inv in C1. injection H as <-. left. auto. }
  destruct (negb (jseqb (Parser.peek p1) (js "!"))) eqn:C2; [discriminate|].
  apply negb_true_false in C2. apply (peek_char_inv p1 bang) in C2 as [rest Hp1].
  pose proof (input_next_cons _ Hp1) as Hn1.
  destruct (Parser.parseName (Parser.next p1)) as [[cell1 p2]| |] eqn:N2;
    cbn [bind] in H; try discriminate.
  destruct (parseName_inv _ N2) as (E2 & A2 & _). rewrite Hn1 in E2.
  right. destruct (jseqb (Parser.peek p2) EOF) eqn:C3.
  { apply peek_EOF_inv in C3. rewrite C3, app_nil_r in E2. injection H as <-.
    exists cell1, None. rewrite Hp1, E2. simpl. auto. }
  destruct (negb (jseqb (Parser.peek p2) (js ":"))) eqn:C4; [discriminate|].
  apply negb_true_false in C4. apply (peek_char_inv p2 colon) in C4 as [rest2 Hp2].
  pose proof (input_next_cons _ Hp2) as Hn2.
  destruct (Parser.parseName (Parser.next p2)) as [[cell2 p3]| |] eqn:N3;
    cbn [bind] in H; try discriminate.
  destruct (parseName_inv _ N3) as (E3 & A3 & _). rewrite Hn2 in E3.
  destruct (negb (jseqb (Parser.peek p3) EOF)) eqn:C5; [discriminate|].
  apply negb_true_false, peek_EOF_inv in C5. rewrite C5, app_nil_r in E3.
  injection H as <-. exists cell1, (Some cell2).
  rewrite Hp1, E2, Hp2, E3. simpl. auto.
Qed.

(** The parser on an input that starts with a quote: it returns exactly
    when the quoted name is closed and not empty and is followed by nothing,
    by [!cell1] or by [!cell1:cell2], and the sheet name it returns is the
    quoted text with each doubled quote read as one. *)
Theorem Parser_parse_quoted_iff (s : jsstring) (r : InterimResult.t) :
  Parser.parse (Parser.constructor (quote :: s)) = Ret r <-> quoted_shape s r.
Proof.
  split; [apply Parser_parse_quoted_shape|].
  intros (name & rest & U & T & [[-> ->] | (c1 & c2 & -> & A1 & A2 & ->)]).
  - apply (@Parser_parse_quoted_name _ s name); auto.
  - apply (@Parser_parse_quoted_cells _ s name c1 c2); auto.
Qed.

(** ** Termination *)







